(** * cagliari-news-backend: the feed ingestion pipeline

    A shallow embedding of [normalizeItem.js] (the Normalizer: excerpt
    builder, image picker, fingerprinter) and of [saveToDb.js] (the Feed
    Fetcher with retries and the Ingestion Runner), followed by the
    properties the specification states about them. The handlers of
    [server.js] and the two preview scripts, [fetchPreview.js] and
    [previewNormalized.js], are embedded after them, with the properties
    their code shows.

    Conventions of the embedding:
    - a JavaScript string is the list of its UTF-16 code units ([jsstring]),
      so that [length], [slice] and the one-unit ellipsis U+2026 count as
      they do in the source;
    - a JavaScript value is a [JsVal]; a plain object is a finite map from
      property names to values;
    - code that can raise returns an [Outcome]; code that talks to the
      network or the database threads a [World], the trace of the effects
      performed so far, and asks the environment for its answer. *)

From stdpp Require Import gmap strings list sorting.
From Stdlib Require Import ZArith Lia.

#[local] Set Warnings "-register-all".
#[local] Open Scope Z_scope.

(** ** JavaScript values and strings *)

Module Js.

(** A string: UTF-16 code units, each below 65536. *)
Abbreviation jsstring := (list N).

(** An ASCII literal of the source as a [jsstring]. *)
Definition lit (s : string) : jsstring :=
  Ascii.N_of_ascii <$> String.list_ascii_of_string s.

(** The values a parsed feed item is made of. Numbers, arrays and functions
    do not occur in what the XML parser hands over and are left out. *)
Inductive JsVal : Type :=
| VUndef
| VNull
| VBool (b : bool)
| VStr (s : list N)
| VObj (fields : gmap string JsVal).

(** [!!v] *)
Definition truthy (v : JsVal) : bool :=
  match v with
  | VUndef | VNull => false
  | VBool b => b
  | VStr s => match s with [] => false | _ => true end
  | VObj _ => true
  end.

(** [a || b] *)
Definition or_else (a b : JsVal) : JsVal := if truthy a then a else b.

(** [v?.k] on a member of an item: the own property of an object,
    [undefined] where the object has none of that name, and [undefined] on
    every other receiver (the only name so read is [url], which no
    prototype defines). *)
Definition opt_get (v : JsVal) (k : string) : JsVal :=
  match v with
  | VObj fields => default VUndef (fields !! k)
  | _ => VUndef
  end.

(** A raw feed item: an object as the feed parser builds it, or nothing
    ([null] or [undefined]). *)
Inductive Item : Type :=
| Nullish
| ItemObj (fields : gmap string JsVal).

(** [item?.k]: [undefined] on a nullish item, else the own property. None
    of the names read from an item is defined by [Object.prototype]. *)
Definition item_get (item : Item) (k : string) : JsVal :=
  match item with
  | ItemObj fields => default VUndef (fields !! k)
  | Nullish => VUndef
  end.

(** [typeof v === 'string'] *)
Definition is_string (v : JsVal) : bool :=
  match v with VStr _ => true | _ => false end.

(** The code units that [\s] matches and that [trim] strips: WhiteSpace and
    LineTerminator of ECMAScript. *)
Definition is_space (c : N) : bool :=
  ((9 <=? c) && (c <=? 13) || (c =? 32) || (c =? 160) || (c =? 0x1680)
   || (0x2000 <=? c) && (c <=? 0x200A) || (c =? 0x2028) || (c =? 0x2029)
   || (c =? 0x202F) || (c =? 0x205F) || (c =? 0x3000) || (c =? 0xFEFF))%N.

Fixpoint trimStart (s : jsstring) : jsstring :=
  match s with
  | c :: r => if is_space c then trimStart r else s
  | [] => []
  end.

Definition trimEnd (s : jsstring) : jsstring := rev (trimStart (rev s)).

(** [s.trim()] *)
Definition trim (s : jsstring) : jsstring := trimEnd (trimStart s).

(** [s.replace(/\s+/g, ' ')]: [in_run] says that the previous code unit was
    whitespace, so that the run it belongs to has already been replaced. *)
Fixpoint collapse_from (in_run : bool) (s : jsstring) : jsstring :=
  match s with
  | [] => []
  | c :: r =>
      if is_space c
      then (if in_run then collapse_from true r else 32%N :: collapse_from true r)
      else c :: collapse_from false r
  end.

Definition collapse_spaces (s : jsstring) : jsstring := collapse_from false s.

(** [s.length] *)
Definition jslength (s : jsstring) : Z := Z.of_nat (length s).

(** [s.slice(0, e)]: a negative end counts from the end of the string. *)
Definition slice0 (s : jsstring) (e : Z) : jsstring :=
  let len := jslength s in
  let stop := if e <? 0 then Z.max (len + e) 0 else Z.min e len in
  take (Z.to_nat stop) s.

(** What a [throw] carries: an Error object, or [undefined] when a variable
    that was never assigned is thrown. *)
Inductive ErrorName : Type := TypeError | Error.

Record JsError : Type := mkError { err_name : ErrorName; err_message : string }.

Inductive Thrown : Type :=
| ThrownUndefined
| ThrownError (e : JsError).

Inductive Outcome (A : Type) : Type :=
| Return (a : A)
| Throw (t : Thrown).

Arguments Return {A} a.
Arguments Throw {A} t.

#[global] Instance Outcome_ret : MRet Outcome := fun A a => Return a.

#[global] Instance Outcome_bind : MBind Outcome := fun A B k o =>
  match o with
  | Return a => k a
  | Throw t => Throw t
  end.

(** [String(v)]. An object is converted through its [toString] method; an
    own property of that name shadows the inherited method, and as no value
    of the model is callable the conversion then raises. *)
Definition to_String (v : JsVal) : Outcome jsstring :=
  match v with
  | VUndef => Return (lit "undefined")
  | VNull => Return (lit "null")
  | VBool true => Return (lit "true")
  | VBool false => Return (lit "false")
  | VStr s => Return s
  | VObj fields =>
      match fields !! "toString" with
      | None => Return (lit "[object Object]")
      | Some _ =>
          Throw (ThrownError (mkError TypeError "Cannot convert object to primitive value"))
      end
  end.

(** [v.trim()] on an arbitrary value: only strings have the method. *)
Definition call_trim (v : JsVal) : Outcome jsstring :=
  match v with
  | VStr s => Return (trim s)
  | _ => Throw (ThrownError (mkError TypeError "trim is not a function"))
  end.

(** A [Date] object, by its time value in milliseconds; [InvalidDate] is
    the object whose time value is NaN. *)
Inductive JsDate : Type :=
| ValidDate (ms : Z)
| InvalidDate.

End Js.

Import Js.

(** ** The fingerprint: SHA-1 of the UTF-8 encoding, in hexadecimal

    [crypto.createHash('sha1').update(String(str)).digest('hex')]. The
    string is hashed as UTF-8, a lone surrogate as U+FFFD. Words are 32-bit
    integers in [Z], each addition reduced modulo 2^32. *)

Module Sha1.

Definition is_high_surrogate (c : N) : bool := ((0xD800 <=? c) && (c <=? 0xDBFF))%N.
Definition is_low_surrogate (c : N) : bool := ((0xDC00 <=? c) && (c <=? 0xDFFF))%N.

(** The UTF-8 bytes of one code point. *)
Definition utf8_of_code_point (p : N) : list Z :=
  let z := Z.of_N p in
  if z <? 0x80 then [z]
  else if z <? 0x800 then
    [Z.lor 0xC0 (Z.shiftr z 6); Z.lor 0x80 (Z.land z 0x3F)]
  else if z <? 0x10000 then
    [Z.lor 0xE0 (Z.shiftr z 12); Z.lor 0x80 (Z.land (Z.shiftr z 6) 0x3F);
     Z.lor 0x80 (Z.land z 0x3F)]
  else
    [Z.lor 0xF0 (Z.shiftr z 18); Z.lor 0x80 (Z.land (Z.shiftr z 12) 0x3F);
     Z.lor 0x80 (Z.land (Z.shiftr z 6) 0x3F); Z.lor 0x80 (Z.land z 0x3F)].

Fixpoint utf8_encode (s : jsstring) : list Z :=
  match s with
  | [] => []
  | c :: r =>
      if is_high_surrogate c then
        match r with
        | d :: r' =>
            if is_low_surrogate d
            then utf8_of_code_point (0x10000 + (c - 0xD800) * 0x400 + (d - 0xDC00))%N
                   ++ utf8_encode r'
            else utf8_of_code_point 0xFFFD ++ utf8_encode r
        | [] => utf8_of_code_point 0xFFFD
        end
      else if is_low_surrogate c then utf8_of_code_point 0xFFFD ++ utf8_encode r
      else utf8_of_code_point c ++ utf8_encode r
  end.

Definition wrap32 (x : Z) : Z := x mod 2 ^ 32.

Definition rotl (n x : Z) : Z :=
  wrap32 (Z.lor (Z.shiftl x n) (Z.shiftr x (32 - n))).

(** Big-endian bytes of [x], [n] of them. *)
Fixpoint be_bytes (n : nat) (x : Z) : list Z :=
  match n with
  | O => []
  | S n' => be_bytes n' (Z.shiftr x 8) ++ [Z.land x 0xFF]
  end.

(** The message, the bit 1, zeros up to 56 modulo 64, the bit length on 8 bytes. *)
Definition pad (msg : list Z) : list Z :=
  let len := Z.of_nat (length msg) in
  let zeros := Z.to_nat ((55 - len) mod 64) in
  msg ++ [0x80] ++ replicate zeros 0 ++ be_bytes 8 (8 * len).

Fixpoint be_words (n : nat) (bytes : list Z) : list Z :=
  match n, bytes with
  | S n', b0 :: b1 :: b2 :: b3 :: r =>
      (Z.lor (Z.shiftl b0 24) (Z.lor (Z.shiftl b1 16) (Z.lor (Z.shiftl b2 8) b3)))
        :: be_words n' r
  | _, _ => []
  end.

(** The message schedule, most recent word first: [w t] from [w (t-3)],
    [w (t-8)], [w (t-14)] and [w (t-16)]. *)
Fixpoint extend (n : nat) (rev_ws : list Z) : list Z :=
  match n with
  | O => rev_ws
  | S n' =>
      let w k := nth k rev_ws 0 in
      extend n' (rotl 1 (Z.lxor (Z.lxor (w 2%nat) (w 7%nat)) (Z.lxor (w 13%nat) (w 15%nat)))
                   :: rev_ws)
  end.

Definition schedule (block : list Z) : list Z :=
  rev (extend 64 (rev (be_words 16 block))).

Record State : Type := mkState { h0 : Z; h1 : Z; h2 : Z; h3 : Z; h4 : Z }.

Definition initial : State :=
  mkState 0x67452301 0xEFCDAB89 0x98BADCFE 0x10325476 0xC3D2E1F0.

Definition round_f (t : nat) (b c d : Z) : Z :=
  if (t <? 20)%nat then Z.lor (Z.land b c) (Z.land (Z.lxor b 0xFFFFFFFF) d)
  else if (t <? 40)%nat then Z.lxor (Z.lxor b c) d
  else if (t <? 60)%nat then Z.lor (Z.lor (Z.land b c) (Z.land b d)) (Z.land c d)
  else Z.lxor (Z.lxor b c) d.

Definition round_k (t : nat) : Z :=
  if (t <? 20)%nat then 0x5A827999
  else if (t <? 40)%nat then 0x6ED9EBA1
  else if (t <? 60)%nat then 0x8F1BBCDC
  else 0xCA62C1D6.

Fixpoint rounds (t : nat) (ws : list Z) (s : State) : State :=
  match ws with
  | [] => s
  | w :: ws' =>
      let '(mkState a b c d e) := s in
      let tmp := wrap32 (rotl 5 a + round_f t b c d + e + round_k t + w) in
      rounds (S t) ws' (mkState tmp a (rotl 30 b) c d)
  end.

Definition compress (s : State) (block : list Z) : State :=
  let '(mkState a b c d e) := rounds 0 (schedule block) s in
  mkState (wrap32 (h0 s + a)) (wrap32 (h1 s + b)) (wrap32 (h2 s + c))
          (wrap32 (h3 s + d)) (wrap32 (h4 s + e)).

(** One block of 64 bytes after the other; [fuel] bounds the number of blocks. *)
Fixpoint blocks (fuel : nat) (bytes : list Z) (s : State) : State :=
  match fuel, bytes with
  | S fuel', _ :: _ => blocks fuel' (drop 64 bytes) (compress s (take 64 bytes))
  | _, _ => s
  end.

Definition digest (msg : list Z) : State :=
  let padded := pad msg in blocks (length padded) padded initial.

Definition hex_digit (x : Z) : N :=
  Z.to_N (if x <? 10 then 48 + x else 87 + x).

(** [n] lowercase hexadecimal digits of [x], most significant first. *)
Fixpoint hex (n : nat) (x : Z) : jsstring :=
  match n with
  | O => []
  | S n' => hex n' (Z.shiftr x 4) ++ [hex_digit (Z.land x 0xF)]
  end.

Definition hex_of_state (s : State) : jsstring :=
  hex 8 (h0 s) ++ hex 8 (h1 s) ++ hex 8 (h2 s) ++ hex 8 (h3 s) ++ hex 8 (h4 s).

(** [sha1(str)] of the source, on a string. *)
Definition sha1 (str : jsstring) : jsstring :=
  hex_of_state (digest (utf8_encode str)).

(** A lowercase hexadecimal digit. *)
Definition is_hex_digit (c : N) : bool :=
  ((48 <=? c) && (c <=? 57) || (97 <=? c) && (c <=? 102))%N.

End Sha1.

(** ** normalizeItem.js *)

Module Normalize.

(** *** The image pattern

    [/<img[^>]+src=Q([^Q]+)Q/i], where Q stands for the double quote. *)

(** Case folding of [/i] without the [u] flag: only ASCII letters are
    equated with their other case. *)
Definition lower (c : N) : N :=
  if ((65 <=? c) && (c <=? 90))%N then (c + 32)%N else c.

(** [s] minus the prefix [p] (lower-case letters and signs), compared
    without regard to case. *)
Fixpoint strip_prefix_ci (p s : jsstring) : option jsstring :=
  match p, s with
  | [], _ => Some s
  | a :: p', c :: s' => if (lower c =? a)%N then strip_prefix_ci p' s' else None
  | _ :: _, [] => None
  end.

Definition quote : N := 34%N.
Definition gt : N := 62%N.

(** [([^Q]+)Q] at the head of [s]: the longest run without a quote, which
    must be followed by a quote; the run is returned, possibly empty. *)
Fixpoint until_quote (s : jsstring) : option jsstring :=
  match s with
  | [] => None
  | c :: r => if (c =? quote)%N then Some [] else cons c <$> until_quote r
  end.

(** [src=Q([^Q]+)Q] at the head of [s]: the captured group. *)
Definition src_attr (s : jsstring) : option jsstring :=
  match strip_prefix_ci (lit "src=" ++ [quote]) s with
  | Some r =>
      match until_quote r with
      | Some (c :: x) => Some (c :: x)
      | _ => None
      end
  | None => None
  end.

(** The rest of [[^>]+src=Q([^Q]+)Q] once [[^>]+] has taken one code unit:
    it is greedy, so taking one more is tried before the attribute. *)
Fixpoint tag_rest (s : jsstring) : option jsstring :=
  match s with
  | [] => None
  | c :: r =>
      match (if (c =? gt)%N then None else tag_rest r) with
      | Some x => Some x
      | None => src_attr s
      end
  end.

(** The whole pattern at the head of [s]. *)
Definition img_at (s : jsstring) : option jsstring :=
  match strip_prefix_ci (lit "<img") s with
  | Some (c :: r) => if (c =? gt)%N then None else tag_rest r
  | _ => None
  end.

(** [String(html).match(pattern)]: group 1 of the leftmost match. *)
Fixpoint match_img (s : jsstring) : option jsstring :=
  match s with
  | [] => None
  | _ :: r =>
      match img_at s with
      | Some x => Some x
      | None => match_img r
      end
  end.

(** *** makeExcerpt *)

Definition ellipsis : N := 0x2026%N.

Definition makeExcerpt (str : JsVal) (max : Z) : Outcome (option jsstring) :=
  if negb (truthy str) then Return None
  else
    raw ← to_String str;
    let s := trim (collapse_spaces raw) in
    if jslength s <=? max then Return (Some s)
    else Return (Some (trim (slice0 s (max - 1)) ++ [ellipsis])).

(** *** pickImage *)

Definition pickImage (item : Item) : Outcome JsVal :=
  let encl := item_get item "enclosure" in
  if is_string encl then Return encl
  else if truthy (opt_get encl "url") then Return (opt_get encl "url")
  else
    let mContent := item_get item "mediaContent" in
    if is_string mContent then Return mContent
    else if truthy (opt_get mContent "url") then Return (opt_get mContent "url")
    else
      let mThumb := item_get item "mediaThumbnail" in
      if is_string mThumb then Return mThumb
      else if truthy (opt_get mThumb "url") then Return (opt_get mThumb "url")
      else
        let html := or_else (item_get item "content:encoded") (item_get item "content") in
        if truthy html then
          text ← to_String html;
          match match_img text with
          | Some src => Return (VStr src)
          | None => Return VNull
          end
        else Return VNull.

(** [x || null] for a string [x]. *)
Definition or_null (x : jsstring) : option jsstring :=
  match x with
  | [] => None
  | _ => Some x
  end.

(** Truthiness of a string or [null]. *)
Definition present (x : option jsstring) : bool :=
  match x with
  | Some (_ :: _) => true
  | _ => false
  end.

(** [sha1(str)] *)
Definition sha1 (str : jsstring) : jsstring := Sha1.sha1 str.

Record Article : Type := mkArticle {
  title : jsstring;
  canonical_url : option jsstring;
  url_hash : option jsstring;
  published_at : option JsDate;
  image_url : JsVal;
  excerpt : option jsstring;
  content_html : option jsstring;
}.

(** [item?.link || item?.guid || ''], whose [trim] is the canonical URL. *)
Definition url_source (item : Item) : JsVal :=
  or_else (item_get item "link") (or_else (item_get item "guid") (VStr [])).

(** [publishedRaw], [excerptSource] and [rawHtml] of [normalizeItem]. *)
Definition publishedRaw (item : Item) : JsVal :=
  or_else (item_get item "isoDate") (or_else (item_get item "pubDate") VNull).

Definition excerptSource (item : Item) : JsVal :=
  or_else (item_get item "contentSnippet")
    (or_else (item_get item "summary")
      (or_else (item_get item "description")
        (or_else (item_get item "content") VNull))).

Definition rawHtml (item : Item) : JsVal :=
  or_else (item_get item "content:encoded") (or_else (item_get item "content") VNull).

(** The [Date] object of a time value, [None] being NaN. *)
Definition date_of_time (t : option Z) : JsDate :=
  match t with
  | Some ms => ValidDate ms
  | None => InvalidDate
  end.

Section Host.

(** [Date.parse], whose reading of a string is left to the engine: the time
    value, or [None] for NaN. *)
Variable Date_parse : jsstring -> option Z.

(** The [sanitize-html] package, called with the fixed allow-lists. *)
Variable sanitizeHtml : jsstring -> jsstring.

(** [new Date(v)]: a string is parsed, any other primitive is converted to
    a number, an object is first converted to a primitive (its string). *)
Definition new_Date (v : JsVal) : Outcome JsDate :=
  match v with
  | VUndef => Return InvalidDate
  | VNull => Return (ValidDate 0)
  | VBool b => Return (ValidDate (if b then 1 else 0))
  | VStr s => Return (date_of_time (Date_parse s))
  | VObj _ => s ← to_String v; Return (date_of_time (Date_parse s))
  end.

Definition sanitizeContent (html : JsVal) : Outcome (option jsstring) :=
  if negb (truthy html) then Return None
  else text ← to_String html; Return (Some (sanitizeHtml text)).

Definition normalizeItem (item : Item) : Outcome Article :=
  title ← call_trim (or_else (item_get item "title") (VStr []));
  trimmed ← call_trim (url_source item);
  let canonical_url := or_null trimmed in
  published_at ← (if truthy (publishedRaw item)
                  then d ← new_Date (publishedRaw item); Return (Some d)
                  else Return None);
  excerpt ← makeExcerpt (excerptSource item) 220;
  content_html ← sanitizeContent (rawHtml item);
  image_url ← pickImage item;
  let url_hash := if present canonical_url then sha1 <$> canonical_url else None in
  Return (mkArticle title canonical_url url_hash published_at image_url excerpt content_html).

End Host.

End Normalize.

Import Normalize.

(** ** saveToDb.js *)

Module Ingest.

(** What [parser.parseURL] resolves to: [feed.title] and [feed.items]
    (an array, or missing). *)
Record Feed : Type := mkFeed { feed_title : JsVal; feed_items : option (list Item) }.

(** The parameters bound to the INSERT statement, in its column order. *)
Record QueryParams : Type := mkParams {
  q_title : jsstring;
  q_canonical_url : option jsstring;
  q_url_hash : option jsstring;
  q_excerpt : option jsstring;
  q_content_html : option jsstring;
  q_image_url : JsVal;
  q_published_at : option JsDate;
}.

(** The effects of a run, oldest first: [setTimeout] delays in
    milliseconds, feed requests, INSERT statements, the closing of the pool.
    Console output is not recorded. *)
Inductive Event : Type :=
| EvSleep (ms : Z)
| EvParseURL (url : string)
| EvQuery (params : QueryParams)
| EvPoolEnd.

Definition World : Type := list Event.

(** A computation that may await: from the trace so far to an outcome and
    the extended trace. *)
Definition M (A : Type) : Type := World -> Outcome A * World.

#[global] Instance M_ret : MRet M := fun A a w => (Return a, w).

#[global] Instance M_bind : MBind M := fun A B k m w =>
  match m w with
  | (Return a, w') => k a w'
  | (Throw t, w') => (Throw t, w')
  end.

Definition throw {A} (t : Thrown) : M A := fun w => (Throw t, w).

Definition lift {A} (o : Outcome A) : M A := fun w => (o, w).

(** [try { body } catch (err) { handler }] *)
Definition try_catch {A} (body : M A) (handler : Thrown -> M A) : M A := fun w =>
  match body w with
  | (Return a, w') => (Return a, w')
  | (Throw t, w') => handler t w'
  end.

(** [try { body } finally { cleanup }] *)
Definition finally {A} (body : M A) (cleanup : M unit) : M A := fun w =>
  let '(o, w') := body w in
  match cleanup w' with
  | (Return _, w'') => (o, w'')
  | (Throw t, w'') => (Throw t, w'')
  end.

(** [err.message] *)
Definition message_of (err : Thrown) : M string :=
  match err with
  | ThrownError e => mret (err_message e)
  | ThrownUndefined =>
      throw (ThrownError (mkError TypeError "Cannot read properties of undefined"))
  end.

(** [await new Promise(r => setTimeout(r, ms))] *)
Definition sleep (ms : Z) : M unit := fun w => (Return tt, w ++ [EvSleep ms]).

(** The result of [insertArticle]. *)
Inductive Reason : Type :=
| MissingKeyFields
| UnexpectedAffectedRows (n : Z).

Record InsertResult : Type := mkInsertResult {
  inserted : bool;
  duplicated : bool;
  reason : option Reason;
}.

(** The three counters of [saveFeed] and of [main]. *)
Record Counts : Type := mkCounts { n_inserted : nat; n_duplicated : nat; n_skipped : nat }.

Definition no_counts : Counts := mkCounts 0 0 0.
Definition count_inserted (c : Counts) : Counts :=
  mkCounts (S (n_inserted c)) (n_duplicated c) (n_skipped c).
Definition count_duplicated (c : Counts) : Counts :=
  mkCounts (n_inserted c) (S (n_duplicated c)) (n_skipped c).
Definition count_skipped (c : Counts) : Counts :=
  mkCounts (n_inserted c) (n_duplicated c) (S (n_skipped c)).
Definition add_counts (c d : Counts) : Counts :=
  mkCounts (n_inserted c + n_inserted d) (n_duplicated c + n_duplicated d)
           (n_skipped c + n_skipped d).

(** What [saveFeed] returns: the counters, and [error] on a failed feed. *)
Record Tally : Type := mkTally { counts : Counts; error : option string }.

Inductive RunResult : Type :=
| ExitFailure
| Completed (totals : Counts)
| GeneralError (msg : string).

Section Environment.

Variable Date_parse : jsstring -> option Z.
Variable sanitizeHtml : jsstring -> jsstring.

(** The network and the feed parser: what [parser.parseURL(url)] settles
    to, given everything that happened before: a rejection with an Error
    or a parsed feed. *)
Variable parse_answer : World -> string -> JsError + Feed.

(** The database: what [pool.query] settles to: a rejection with an Error
    or the [affectedRows] of the result header. *)
Variable query_answer : World -> QueryParams -> JsError + Z.

Definition parseURL (url : string) : M Feed := fun w =>
  (match parse_answer w url with
   | inl e => Throw (ThrownError e)
   | inr feed => Return feed
   end, w ++ [EvParseURL url]).

Definition pool_query (params : QueryParams) : M Z := fun w =>
  (match query_answer w params with
   | inl e => Throw (ThrownError e)
   | inr rows => Return rows
   end, w ++ [EvQuery params]).

(** The loop of [parseWithRetry] from iteration [i] on, [todo] iterations
    being left ([i <= attempts]); [lastErr] is the variable of that name. *)
Fixpoint retry_loop (url : string) (attempts i todo : nat) (lastErr : Thrown) : M Feed :=
  match todo with
  | O => throw lastErr
  | S todo' =>
      try_catch
        (_ ← (if (1 <? i)%nat then sleep (1000 * Z.of_nat i) else mret tt);
         parseURL url)
        (fun err =>
           if (i =? attempts)%nat then throw err
           else retry_loop url attempts (S i) todo' err)
  end.

Definition parseWithRetry (url : string) (attempts : nat) : M Feed :=
  retry_loop url attempts 1 attempts ThrownUndefined.

Definition params_of (a : Article) : QueryParams :=
  mkParams (title a) (canonical_url a) (url_hash a)
           (excerpt a ≫= or_null) (content_html a ≫= or_null)
           (or_else (image_url a) VNull) (published_at a).

(** [!a.title || !a.canonical_url || !a.url_hash] *)
Definition lacks_key_fields (a : Article) : bool :=
  negb (present (Some (title a))) || negb (present (canonical_url a))
  || negb (present (url_hash a)).

Definition insertArticle (a : Article) : M InsertResult :=
  if lacks_key_fields a then mret (mkInsertResult false false (Some MissingKeyFields))
  else
    affectedRows ← pool_query (params_of a);
    if affectedRows =? 1 then mret (mkInsertResult true false None)
    else if affectedRows =? 2 then mret (mkInsertResult false true None)
    else mret (mkInsertResult false false (Some (UnexpectedAffectedRows affectedRows))).

(** [!n.canonical_url || !n.url_hash || !n.title] *)
Definition not_storable (n : Article) : bool :=
  negb (present (canonical_url n)) || negb (present (url_hash n))
  || negb (present (Some (title n))).

(** One turn of the loop over [items] in [saveFeed]. *)
Definition save_item (raw : Item) (c : Counts) : M Counts :=
  n ← lift (normalizeItem Date_parse sanitizeHtml raw);
  if not_storable n then mret (count_skipped c)
  else
    try_catch
      (res ← insertArticle n;
       if inserted res then mret (count_inserted c)
       else if duplicated res then mret (count_duplicated c)
       else mret (count_skipped c))
      (fun e => _ ← message_of e; mret (count_skipped c)).

Fixpoint save_items (items : list Item) (c : Counts) : M Counts :=
  match items with
  | [] => mret c
  | raw :: rest => c' ← save_item raw c; save_items rest c'
  end.

Definition saveFeed (url : string) : M Tally :=
  try_catch
    (feed ← parseWithRetry url 3;
     let items := default [] (feed_items feed) in
     c ← save_items items no_counts;
     mret (mkTally c None))
    (fun err => msg ← message_of err; mret (mkTally no_counts (Some msg))).

(** The loop over [FEEDS] in [main]. *)
Fixpoint run_feeds (feeds : list string) (totals : Counts) : M Counts :=
  match feeds with
  | [] => mret totals
  | url :: rest => t ← saveFeed url; run_feeds rest (add_counts totals (counts t))
  end.

Definition main (FEEDS : list string) : M RunResult :=
  match FEEDS with
  | [] => mret ExitFailure
  | _ =>
      finally
        (try_catch
           (totals ← run_feeds FEEDS no_counts; mret (Completed totals))
           (fun e => msg ← message_of e; mret (GeneralError msg)))
        (fun w => (Return tt, w ++ [EvPoolEnd]))
  end.

End Environment.

End Ingest.

Import Ingest.

(** ** Sample items and environments *)

Module Samples.

Definition obj (fields : list (string * JsVal)) : JsVal := VObj (list_to_map fields).
Definition item (fields : list (string * JsVal)) : Item := ItemObj (list_to_map fields).
Definition str (s : string) : JsVal := VStr (lit s).

(** An engine that reads no string as a date, and a sanitizer that keeps
    its input: enough where no date parses and no markup is filtered. *)
Definition parse_nothing : jsstring -> option Z := fun _ => None.
Definition keep_all : jsstring -> jsstring := fun s => s.

Definition breaking_news : Item :=
  item [("title", str "Breaking News"); ("link", str "https://example.com/a")].

Definition guid_only : Item := item [("guid", str "id-123")].

Definition blank_link : Item :=
  item [("title", str "Breaking News"); ("link", str "   ");
       ("guid", str "https://example.com/a")].

Definition undated : Item :=
  item [("title", str "Breaking News"); ("link", str "https://example.com/a");
       ("isoDate", str "not a date")].

(** An empty title element that carries an attribute, as the XML parser
    renders it. *)
Definition object_title : Item :=
  item [("title", obj [("$", obj [("type", str "html")])]);
       ("link", str "https://example.com/a")].


(** The Articles of some of these items. *)
Definition article_of (title url : string) : Article :=
  mkArticle (lit title) (Some (lit url)) (Some (sha1 (lit url))) None VNull None None.

Definition breaking_news_article : Article :=
  article_of "Breaking News" "https://example.com/a".

Definition guid_only_article : Article := article_of "" "id-123".

Definition blank_link_article : Article :=
  mkArticle (lit "Breaking News") None None None VNull None None.

Definition undated_article : Article :=
  mkArticle (lit "Breaking News") (Some (lit "https://example.com/a"))
    (Some (sha1 (lit "https://example.com/a"))) (Some InvalidDate) VNull None None.

Definition timeout_error : JsError := mkError Error "Request timed out after 25000ms".

(** A network that is down, and one that serves the same feed to everyone. *)
Definition always_down : World -> string -> JsError + Feed := fun _ _ => inl timeout_error.
Definition serves (feed : Feed) : World -> string -> JsError + Feed := fun _ _ => inr feed.


(** A network that, in a run started on the empty trace, fails the first
    two requests and answers the third. *)
Definition up_at_third (feed : Feed) : World -> string -> JsError + Feed :=
  fun w _ => if (length w =? 4)%nat then inr feed else inl timeout_error.

(** A database that stores every row as new, and one that rejects every statement. *)
Definition stores_all : World -> QueryParams -> JsError + Z := fun _ _ => inr 1.

Definition one_item_feed : Feed := mkFeed (str "Cagliari") (Some [breaking_news]).

(** A feed whose second item has an object for a title. *)
Definition mixed_feed : Feed :=
  mkFeed (str "Cagliari") (Some [breaking_news; object_title; guid_only]).

End Samples.

Import Samples.

(** ** The specification's wording, and the predicates the properties use *)

Module Spec.

(** What a field holds when it holds a text: a missing field, [null] and
    the empty string hold none. *)
Definition field_text (item : Item) (k : string) : option jsstring :=
  match item_get item k with
  | VStr (c :: s) => Some (c :: s)
  | _ => None
  end.

(** Canonical URL: the [link] field, else the [guid] field, else absent;
    trimmed; the empty string after the trim is absent. *)
Definition canonical_url_spec (item : Item) : option jsstring :=
  match field_text item "link" with
  | Some l => or_null (trim l)
  | None =>
      match field_text item "guid" with
      | Some g => or_null (trim g)
      | None => None
      end
  end.






(** Whitespace runs collapsed: the only whitespace left is the space
    U+0020, and never two in a row; [after_space] says that a space comes
    just before [s]. *)
Fixpoint single_spaced (after_space : bool) (s : jsstring) : bool :=
  match s with
  | [] => true
  | c :: r =>
      if is_space c then (c =? 32)%N && negb after_space && single_spaced true r
      else single_spaced false r
  end.

(** No whitespace at the head of [s]. *)
Definition starts_clean (s : jsstring) : bool :=
  match s with
  | c :: _ => negb (is_space c)
  | [] => true
  end.

(** Collapsed and trimmed at both ends. *)
Definition tidy (s : jsstring) : Prop :=
  single_spaced false s = true /\ starts_clean s = true /\ starts_clean (rev s) = true.

(** How the answer of the database moves the counters. *)
Definition classify (answer : JsError + Z) (c : Counts) : Counts :=
  match answer with
  | inr rows =>
      if rows =? 1 then count_inserted c
      else if rows =? 2 then count_duplicated c
      else count_skipped c
  | inl _ => count_skipped c
  end.

(** An outcome that is not the raising of [undefined]. *)
Definition raises_errors_only {A} (o : Outcome A) : Prop :=
  match o with
  | Throw ThrownUndefined => False
  | _ => True
  end.

(** A value that is a text or nothing: a string, [undefined] or [null]. *)
Definition text_or_missing (v : JsVal) : Prop :=
  match v with
  | VUndef | VNull | VStr _ => True
  | _ => False
  end.

(** A value that [String] converts: anything but an object with a
    property of its own named [toString]. *)
Definition convertible (v : JsVal) : Prop :=
  match v with
  | VObj fields => fields !! "toString" = None
  | _ => True
  end.

End Spec.

Import Spec.

(** ** server.js *)

Module Server.

(** A JavaScript number as far as the handlers need it: NaN, an integer
    that a double holds exactly, a number of magnitude 2^52 or more whose
    value is not followed (finite or infinite), or a number about which
    nothing is known. The last two keep the arithmetic honest on absurdly
    long numerals without modelling the rounding of doubles. *)
Inductive Num : Type :=
| NaN
| Int (z : Z)
| Huge (negative : bool)
| Untracked.

Definition exactly (z : Z) : Num :=
  if Z.abs z <? 2 ^ 53 then Int z else Huge (z <? 0).

(** [n || d] *)
Definition num_or (n d : Num) : Num :=
  match n with
  | NaN | Int 0 => d
  | Untracked => Untracked
  | _ => n
  end.

(** [Math.max(k, n)] and [Math.min(k, n)] for a small integer [k]. *)
Definition num_max (k : Z) (n : Num) : Num :=
  match n with
  | NaN => NaN
  | Int z => Int (Z.max k z)
  | Huge negative => if negative then Int k else Huge false
  | Untracked => Untracked
  end.

Definition num_min (k : Z) (n : Num) : Num :=
  match n with
  | NaN => NaN
  | Int z => Int (Z.min k z)
  | Huge negative => if negative then Huge true else Int k
  | Untracked => Untracked
  end.

(** [n - 1] *)
Definition num_pred (n : Num) : Num :=
  match n with
  | Int z => exactly (z - 1)
  | _ => n
  end.

(** [a * b] *)
Definition num_mul (a b : Num) : Num :=
  match a, b with
  | NaN, _ | _, NaN => NaN
  | Int x, Int y => exactly (x * y)
  | Huge s, Int y | Int y, Huge s =>
      if y =? 0 then Untracked else Huge (xorb s (y <? 0))
  | Huge s, Huge s' => Huge (xorb s s')
  | _, _ => Untracked
  end.

Definition is_digit (c : N) : bool := ((48 <=? c) && (c <=? 57))%N.

(** The value of the longest prefix of decimal digits of [s], read after
    the digits of value [acc]; [None] when [s] starts with no digit and
    [seen] is false. *)
Fixpoint digits_value (seen : bool) (acc : Z) (s : jsstring) : option Z :=
  match s with
  | c :: r =>
      if is_digit c then digits_value true (10 * acc + (Z.of_N c - 48)) r
      else if seen then Some acc else None
  | [] => if seen then Some acc else None
  end.

(** [parseInt(s, 10)] on a string: leading whitespace is dropped, one sign
    is read, then the longest prefix of digits; NaN when there is none. *)
Definition parseInt10 (s : jsstring) : Num :=
  let body := trimStart s in
  let negative := match body with c :: _ => (c =? 45)%N | [] => false end in
  let unsigned :=
    match body with
    | c :: r => if ((c =? 43) || (c =? 45))%N then r else body
    | [] => body
    end in
  match digits_value false 0 unsigned with
  | Some v => exactly (if negative then - v else v)
  | None => NaN
  end.

(** [parseInt(v, 10)] on any value: the value is first converted to a string. *)
Definition parseInt (v : JsVal) : Outcome Num :=
  s ← to_String v; Return (parseInt10 s).

(** The statements the server sends. The two statements over [articles]
    carry the filter [WHERE (title LIKE ? OR excerpt LIKE ?)] or not. *)
Inductive Statement : Type :=
| CountArticles (filtered : bool)
| SelectArticles (filtered : bool)
| UpsertImportant
| SelectImportant
| DeleteImportant.

(** The number of [?] in the text of a statement. *)
Definition placeholders (st : Statement) : nat :=
  match st with
  | CountArticles filtered => if filtered then 2 else 0
  | SelectArticles filtered => (if filtered then 2 else 0) + 2
  | UpsertImportant => 6
  | SelectImportant => 0
  | DeleteImportant => 1
  end.

(** A value bound to a [?]. *)
Inductive SqlParam : Type :=
| PString (s : jsstring)
| PNumber (n : Num)
| PValue (v : JsVal)
| PDate (d : JsDate)
| PNull.

(** The statements sent so far, oldest first. *)
Record Sent : Type := mkSent { statement : Statement; bound : list SqlParam }.

Definition DbTrace : Type := list Sent.

Definition Db (A : Type) : Type := DbTrace -> Outcome A * DbTrace.

#[global] Instance Db_ret : MRet Db := fun A a w => (Return a, w).

#[global] Instance Db_bind : MBind Db := fun A B k m w =>
  match m w with
  | (Return a, w') => k a w'
  | (Throw t, w') => (Throw t, w')
  end.

Definition liftDb {A} (o : Outcome A) : Db A := fun w => (o, w).

(** [try { body } catch (err) { handler }] *)
Definition try_catchDb {A} (body : Db A) (handler : Thrown -> Db A) : Db A := fun w =>
  match body w with
  | (Return a, w') => (Return a, w')
  | (Throw t, w') => handler t w'
  end.


Section Handlers.

(** A row of a result set, as the driver builds it. *)
Variable Row : Type.

Variable Date_parse : jsstring -> option Z.

(** The database: what [pool.query] settles to for a statement and its
    parameters, given what was sent before: for the count, [total] of the
    first row if there is one; for a SELECT, the rows; for a write,
    [affectedRows]. *)
Variable count_answer : DbTrace -> Sent -> JsError + option Num.
Variable rows_answer : DbTrace -> Sent -> JsError + list Row.
Variable write_answer : DbTrace -> Sent -> JsError + Z.

Definition query {A} (answer : DbTrace -> Sent -> JsError + A) (st : Statement)
    (params : list SqlParam) : Db A := fun w =>
  (match answer w (mkSent st params) with
   | inl e => Throw (ThrownError e)
   | inr a => Return a
   end, w ++ [mkSent st params]).

(** What [res.json] sends. *)
Inductive Body : Type :=
| ArticlesPage (page limit total : Num) (items : list Row)
| ErrorOnly (error : string)
| Refused (error : string)
| Bookmarked (url_hash : jsstring)
| Bookmarks (items : list Row)
| Deleted (deleted : bool).

Record Response : Type := mkResponse { status : nat; body : Body }.

Definition internal_error_ok_false : Response :=
  mkResponse 500 (Refused "Internal Server Error").

(** [Math.max(1, parseInt(req.query.page, 10) || 1)] *)
Definition page_of (raw : JsVal) : Outcome Num :=
  n ← parseInt raw; Return (num_max 1 (num_or n (Int 1))).

(** [Math.min(100, Math.max(1, parseInt(req.query.limit, 10) || 20))] *)
Definition limit_of (raw : JsVal) : Outcome Num :=
  n ← parseInt raw; Return (num_min 100 (num_max 1 (num_or n (Int 20)))).

(** [(page - 1) * limit] *)
Definition offset_of (page limit : Num) : Num := num_mul (num_pred page) limit.



(** A property of the request body, with the default [null] of the
    destructuring, which replaces [undefined] only. *)
Definition field_or_null (body : Item) (k : string) : JsVal :=
  match item_get body k with
  | VUndef => VNull
  | v => v
  end.

Definition param_of (v : JsVal) : SqlParam :=
  match v with
  | VNull | VUndef => PNull
  | _ => PValue v
  end.

(** [POST /api/important] with the parsed body, an object or nothing. *)
Definition post_important (req_body : Item) : Db Response :=
  try_catchDb
    (let canonical_url := item_get req_body "canonical_url" in
     let title := field_or_null req_body "title" in
     let image_url := field_or_null req_body "image_url" in
     let excerpt := field_or_null req_body "excerpt" in
     let published_at := field_or_null req_body "published_at" in
     if negb (truthy canonical_url)
     then mret (mkResponse 400 (Refused "canonical_url obbligatoria"))
     else
       text ← liftDb (to_String canonical_url);
       let url_hash := sha1 text in
       date ← liftDb (if truthy published_at
                      then d ← new_Date Date_parse published_at; Return (PDate d)
                      else Return PNull);
       _ ← query write_answer UpsertImportant
             [PString url_hash; PValue canonical_url; param_of title; param_of image_url;
              param_of excerpt; date];
       mret (mkResponse 200 (Bookmarked url_hash)))
    (fun err => mret internal_error_ok_false).

(** [GET /api/important] *)
Definition get_important : Db Response :=
  try_catchDb
    (rows ← query rows_answer SelectImportant [];
     mret (mkResponse 200 (Bookmarks rows)))
    (fun err => mret internal_error_ok_false).

(** [DELETE /api/important/:hash], the path parameter being a string. *)
Definition delete_important (hash : jsstring) : Db Response :=
  try_catchDb
    (if negb (truthy (VStr hash)) || negb (jslength hash =? 40)
     then mret (mkResponse 400 (Refused "hash non valido"))
     else
       affectedRows ← query write_answer DeleteImportant [PString hash];
       mret (mkResponse 200 (Deleted (0 <? affectedRows))))
    (fun err => mret internal_error_ok_false).

End Handlers.

End Server.

Import Server.

(** ** What fetchPreview.js and previewNormalized.js share *)

Module Preview.

(** What a preview script does, oldest first: a call of [console.log]
    (or [console.dir]) or of [console.error], by its call site and the
    values it is given; a [setTimeout] delay in milliseconds; a feed
    request. How the console renders a value is not modelled. *)
Inductive Event (Line : Type) : Type :=
| Logged (line : Line)
| LoggedError (line : Line)
| Waited (ms : Z)
| Requested (url : string).

Arguments Logged {Line} line.
Arguments LoggedError {Line} line.
Arguments Waited {Line} ms.
Arguments Requested {Line} url.

Definition Screen (Line : Type) : Type := list (Event Line).

(** A computation of a script: from what happened so far to an outcome and
    what has happened then. *)
Definition C (Line A : Type) : Type := Screen Line -> Outcome A * Screen Line.

#[global] Instance C_ret (Line : Type) : MRet (C Line) := fun A a w => (Return a, w).

#[global] Instance C_bind (Line : Type) : MBind (C Line) := fun A B k m w =>
  match m w with
  | (Return a, w') => k a w'
  | (Throw t, w') => (Throw t, w')
  end.

(** How a script ends: [process.exit(code)], or by running to its end. *)
Inductive Ended : Type :=
| Exited (code : Z)
| RanToEnd.

Section Script.

Variable Line : Type.

Definition throwC {A} (t : Thrown) : C Line A := fun w => (Throw t, w).

Definition liftC {A} (o : Outcome A) : C Line A := fun w => (o, w).

(** [try { body } catch (err) { handler }] *)
Definition try_catchC {A} (body : C Line A) (handler : Thrown -> C Line A) : C Line A :=
  fun w =>
    match body w with
    | (Return a, w') => (Return a, w')
    | (Throw t, w') => handler t w'
    end.

(** [err.message] *)
Definition messageC (err : Thrown) : C Line string :=
  match err with
  | ThrownError e => mret (err_message e)
  | ThrownUndefined =>
      throwC (ThrownError (mkError TypeError "Cannot read properties of undefined"))
  end.

Definition log (line : Line) : C Line unit := fun w => (Return tt, w ++ [Logged line]).

Definition log_error (line : Line) : C Line unit := fun w =>
  (Return tt, w ++ [LoggedError line]).

(** [await new Promise(r => setTimeout(r, ms))] *)
Definition wait (ms : Z) : C Line unit := fun w => (Return tt, w ++ [Waited ms]).

(** The line [(retry i/attempts) url...] of the script. *)
Variable retry_note : nat -> nat -> string -> Line.

(** The network and the feed parser, as for the ingest run. *)
Variable parse_answer : Screen Line -> string -> JsError + Feed.

Definition parseURL (url : string) : C Line Feed := fun w =>
  (match parse_answer w url with
   | inl e => Throw (ThrownError e)
   | inr feed => Return feed
   end, w ++ [Requested url]).

(** The loop of [parseWithRetry], the same in both scripts, from iteration
    [i] on, [todo] iterations being left. *)
Fixpoint retry_loop (url : string) (attempts i todo : nat) (lastErr : Thrown)
    : C Line Feed :=
  match todo with
  | O => throwC lastErr
  | S todo' =>
      try_catchC
        (_ ← (if (1 <? i)%nat
              then _ ← wait (1000 * Z.of_nat i); log (retry_note i attempts url)
              else mret tt);
         parseURL url)
        (fun err =>
           if (i =? attempts)%nat then throwC err
           else retry_loop url attempts (S i) todo' err)
  end.

Definition parseWithRetry (url : string) (attempts : nat) : C Line Feed :=
  retry_loop url attempts 1 attempts ThrownUndefined.

End Script.

Arguments throwC {Line A} t.
Arguments liftC {Line A} o.
Arguments try_catchC {Line A} body handler.
Arguments messageC {Line} err.
Arguments log {Line} line.
Arguments log_error {Line} line.
Arguments wait {Line} ms.

End Preview.

Import Preview(Logged, LoggedError, Waited, Requested, Screen, C, Ended, Exited, RanToEnd,
               throwC, liftC, try_catchC, messageC, log, log_error, wait).

(** ** fetchPreview.js *)

Module FetchPreview.

(** The object built by [prettyItemSample]. *)
Module Sample.
Record t : Type := mk {
  title : JsVal;
  link : JsVal;
  isoDate : JsVal;
  enclosure : JsVal;
  mediaContent : JsVal;
  mediaThumbnail : JsVal;
  contentSnippet : JsVal;
}.
End Sample.

(** The calls of the console in the script, each with its values. *)
Inductive Line : Type :=
| Separator
| FeedUrl (url : string)
| Rule
| RetryNote (i attempts : nat) (url : string)
| FeedTitle (title : JsVal)
| ItemsTotal (n : nat)
| NoItems
| AvailableKeys (keys : list string)
| SampleHeading (n : nat)
| SampleShown (sample : Sample.t)
| ReadError (message : string)
| NoFeedsConfigured
| PreviewCompleted.

(** [item.k]: reading a property of [null] or [undefined] raises. *)
Definition get (item : Item) (k : string) : Outcome JsVal :=
  match item with
  | ItemObj _ => Return (item_get item k)
  | Nullish =>
      Throw (ThrownError (mkError TypeError "Cannot read properties of undefined"))
  end.

Definition prettyItemSample (item : Item) : Outcome Sample.t :=
  title ← get item "title";
  link ← get item "link";
  guid ← get item "guid";
  isoDate ← get item "isoDate";
  pubDate ← get item "pubDate";
  let enclosure := item_get item "enclosure" in
  let mediaContent := item_get item "mediaContent" in
  let mediaThumbnail := item_get item "mediaThumbnail" in
  contentSnippet ← (if truthy (item_get item "contentSnippet")
                    then text ← (snippet ← get item "contentSnippet"; to_String snippet);
                         Return (VStr (slice0 text 140))
                    else Return VUndef);
  Return (Sample.mk title (or_else link guid) (or_else isoDate pubDate)
            (or_else (opt_get enclosure "url") enclosure)
            (or_else (opt_get mediaContent "url") mediaContent)
            (or_else (opt_get mediaThumbnail "url") mediaThumbnail)
            contentSnippet).

(** The default order of [sort]: by code units. *)
Definition key_le (a b : string) : Prop := String.leb a b = true.

#[global] Instance key_le_dec (a b : string) : Decision (key_le a b).
Proof. unfold key_le. apply _. Defined.

(** [Object.keys(item).sort()] *)
Definition listItemKeys (item : Item) : Outcome (list string) :=
  match item with
  | ItemObj fields => Return (merge_sort key_le (fst <$> map_to_list fields))
  | Nullish =>
      Throw (ThrownError (mkError TypeError "Cannot convert undefined or null to object"))
  end.

Section Network.

Variable parse_answer : Screen Line -> string -> JsError + Feed.

(** The loop over the first [limit] items, from [i] on. *)
Fixpoint sample_loop (items : list Item) (i todo : nat) : C Line unit :=
  match todo with
  | O => mret tt
  | S todo' =>
      _ ← log (SampleHeading (i + 1));
      sample ← liftC (prettyItemSample (default Nullish (items !! i)));
      _ ← log (SampleShown sample);
      sample_loop items (S i) todo'
  end.

Definition previewOneFeed (url : string) : C Line unit :=
  _ ← log Separator;
  _ ← log (FeedUrl url);
  _ ← log Rule;
  try_catchC
    (feed ← Preview.parseWithRetry Line RetryNote parse_answer url 3;
     _ ← log (FeedTitle (feed_title feed));
     _ ← log (ItemsTotal (from_option length 0%nat (feed_items feed)));
     match feed_items feed with
     | None => log NoItems
     | Some items =>
         if (length items =? 0)%nat then log NoItems
         else
           let first := default Nullish (items !! 0%nat) in
           keys ← liftC (listItemKeys first);
           _ ← log (AvailableKeys keys);
           let limit := Nat.min (length items) 2 in
           sample_loop items 0 limit
     end)
    (fun err => message ← messageC err; log_error (ReadError message)).

Fixpoint preview_feeds (feeds : list string) : C Line unit :=
  match feeds with
  | [] => mret tt
  | url :: rest => _ ← previewOneFeed url; preview_feeds rest
  end.

Definition main (FEEDS : list string) : C Line Ended :=
  if (length FEEDS =? 0)%nat
  then _ ← log_error NoFeedsConfigured; mret (Exited 1)
  else _ ← preview_feeds FEEDS; _ ← log PreviewCompleted; mret RanToEnd.

End Network.

End FetchPreview.

(** ** previewNormalized.js *)

Module PreviewNormalized.

(** The object [output] shown for an item. *)
Module Output.
Record t : Type := mk {
  title : jsstring;
  canonical_url : option jsstring;
  url_hash : option jsstring;
  published_at : option JsDate;
  image_url : JsVal;
  excerpt : option jsstring;
  content_html_preview : option jsstring;
}.
End Output.

Inductive Line : Type :=
| Separator
| FeedUrl (url : string)
| Rule
| RetryNote (i attempts : nat) (url : string)
| FeedTitle (title : JsVal)
| ItemsTotal (n : nat)
| NoItems
| NormalizedHeading (n : nat)
| OutputShown (output : Output.t)
| FeedDone
| ReadError (message : string)
| NoFeedsConfigured
| PreviewCompleted.

(** The [output] of a normalized item. *)
Definition output_of (normalized : Article) : Output.t :=
  Output.mk (title normalized) (canonical_url normalized) (url_hash normalized)
    (published_at normalized) (image_url normalized) (excerpt normalized)
    (if present (content_html normalized)
     then (fun text => slice0 text 120 ++ [ellipsis]) <$> content_html normalized
     else None).

Section Network.

Variable Date_parse : jsstring -> option Z.
Variable sanitizeHtml : jsstring -> jsstring.
Variable parse_answer : Screen Line -> string -> JsError + Feed.

(** The loop over the first [limit] items, from [i] on. *)
Fixpoint output_loop (items : list Item) (i todo : nat) : C Line unit :=
  match todo with
  | O => mret tt
  | S todo' =>
      let raw := default Nullish (items !! i) in
      normalized ← liftC (normalizeItem Date_parse sanitizeHtml raw);
      _ ← log (NormalizedHeading (i + 1));
      _ ← log (OutputShown (output_of normalized));
      output_loop items (S i) todo'
  end.

Definition previewNormalizedFeed (url : string) : C Line unit :=
  _ ← log Separator;
  _ ← log (FeedUrl url);
  _ ← log Rule;
  try_catchC
    (feed ← Preview.parseWithRetry Line RetryNote parse_answer url 3;
     let items := default [] (feed_items feed) in
     _ ← log (FeedTitle (feed_title feed));
     _ ← log (ItemsTotal (length items));
     if (length items =? 0)%nat then log NoItems
     else
       let limit := Nat.min (length items) 2 in
       _ ← output_loop items 0 limit;
       log FeedDone)
    (fun err => message ← messageC err; log_error (ReadError message)).

Fixpoint preview_feeds (feeds : list string) : C Line unit :=
  match feeds with
  | [] => mret tt
  | url :: rest => _ ← previewNormalizedFeed url; preview_feeds rest
  end.

Definition main (FEEDS : list string) : C Line Ended :=
  if (length FEEDS =? 0)%nat
  then _ ← log_error NoFeedsConfigured; mret (Exited 1)
  else _ ← preview_feeds FEEDS; _ ← log PreviewCompleted; mret RanToEnd.

End Network.

End PreviewNormalized.

(** ** Measures and readings used by the further properties *)

Module Measures.

(** The first of the fields [keys] of [item] that holds something, else
    [null]: [item?.k1 || item?.k2 || ... || null]. *)
Fixpoint first_holding (item : Item) (keys : list string) : JsVal :=
  match keys with
  | [] => VNull
  | k :: rest => or_else (item_get item k) (first_holding item rest)
  end.

(** The trace of [k] attempts at [url] in a row, the first of them being
    attempt number [i]: a sleep of 1000 ms times its number before every
    attempt but the first of a call, then the request. *)
Fixpoint attempts_trace (url : string) (i k : nat) : list Event :=
  match k with
  | O => []
  | S k' =>
      (if (1 <? i)%nat then [EvSleep (1000 * Z.of_nat i)] else [])
        ++ EvParseURL url :: attempts_trace url (S i) k'
  end.

(** What a request settles to, as an outcome. *)
Definition settled {A} (answer : JsError + A) : Outcome A :=
  match answer with
  | inl e => Throw (ThrownError e)
  | inr a => Return a
  end.

(** The items counted so far. *)
Definition total (c : Counts) : nat := (n_inserted c + n_duplicated c + n_skipped c)%nat.

Definition is_query (e : Event) : bool :=
  match e with EvQuery _ => true | _ => false end.

Definition is_request (e : Event) : bool :=
  match e with EvParseURL _ => true | _ => false end.

(** The milliseconds slept in a trace. *)
Fixpoint slept (w : list Event) : Z :=
  match w with
  | [] => 0
  | EvSleep ms :: r => ms + slept r
  | _ :: r => slept r
  end.


(** Readings of what a preview script did: the feeds it asked for, the
    delays it waited, and the items it showed. *)
Definition requests {Line} (shown : Screen Line) : list string :=
  omap (fun ev => match ev with Requested url => Some url | _ => None end) shown.

Definition waited {Line} (shown : Screen Line) : Z :=
  foldr (fun ev total => match ev with Waited ms => ms + total | _ => total end) 0 shown.

Definition error_lines {Line} (shown : Screen Line) : list Line :=
  omap (fun ev => match ev with LoggedError line => Some line | _ => None end) shown.

Definition outputs (shown : Screen PreviewNormalized.Line)
    : list PreviewNormalized.Output.t :=
  omap (fun ev => match ev with
                  | Logged (PreviewNormalized.OutputShown output) => Some output
                  | _ => None
                  end) shown.

Definition samples (shown : Screen FetchPreview.Line) : list FetchPreview.Sample.t :=
  omap (fun ev => match ev with
                  | Logged (FetchPreview.SampleShown sample) => Some sample
                  | _ => None
                  end) shown.

(** A preview of [content_html]: nothing, or at most 120 code units
    followed by the ellipsis. *)
Definition short_preview (preview : option jsstring) : Prop :=
  match preview with
  | None => True
  | Some text => exists head, text = head ++ [ellipsis] /\ (length head <= 120)%nat
  end.

(** The requests of a run over [feeds]: each feed in turn, [n] times for
    its [n] in [counts]. *)
Definition visits (counts : list nat) (feeds : list string) : list string :=
  concat (zip_with replicate counts feeds).

(** A snippet as [prettyItemSample] shows it: nothing, or a string of at
    most 140 code units. *)
Definition short_snippet (sample : FetchPreview.Sample.t) : Prop :=
  match FetchPreview.Sample.contentSnippet sample with
  | VUndef => True
  | VStr text => (length text <= 140)%nat
  | _ => False
  end.

End Measures.

Import Measures.

(** * Properties *)

(** ** The Normalizer, field by field *)

Section NormalizerFacts.

Variable Date_parse : jsstring -> option Z.
Variable sanitizeHtml : jsstring -> jsstring.

Lemma bind_Return {A B} (o : Outcome A) (k : A -> Outcome B) (b : B) :
  o ≫= k = Return b -> exists a, o = Return a /\ k a = Return b.
Proof. destruct o as [a|t]; simpl; [eauto | discriminate]. Qed.

(** Whenever an Article comes out, each field is what its own step returned. *)
Lemma normalizeItem_Return (item : Item) (a : Article) :
  normalizeItem Date_parse sanitizeHtml item = Return a ->
  exists t u,
    call_trim (or_else (item_get item "title") (VStr [])) = Return t
    /\ call_trim (url_source item) = Return u
    /\ title a = t
    /\ canonical_url a = or_null u
    /\ url_hash a = (if present (or_null u) then sha1 <$> or_null u else None)
    /\ (if truthy (publishedRaw item)
        then d ← new_Date Date_parse (publishedRaw item); Return (Some d)
        else Return None) = Return (published_at a)
    /\ pickImage item = Return (image_url a).
Proof.
  unfold normalizeItem. intros H.
  apply bind_Return in H as (t & Ht & H).
  apply bind_Return in H as (u & Hu & H).
  apply bind_Return in H as (d & Hd & H).
  apply bind_Return in H as (e & He & H).
  apply bind_Return in H as (c & Hc & H).
  apply bind_Return in H as (i & Hi & H).
  injection H as <-. exists t, u. simpl. by repeat split.
Qed.

Lemma call_trim_Return (v : JsVal) (u : jsstring) :
  call_trim v = Return u -> exists s, v = VStr s /\ u = trim s.
Proof. destruct v; simpl; intros H; try discriminate. injection H as <-. eauto. Qed.

End NormalizerFacts.

(** ** The fingerprint is forty hexadecimal digits *)

Lemma hex_length (n : nat) (x : Z) : length (Sha1.hex n x) = n.
Proof.
  revert x. induction n as [|n IH]; intros x; simpl; [done|].
  rewrite length_app, IH. simpl. lia.
Qed.

Lemma hex_digit_is_hex (d : Z) :
  0 <= d < 16 -> Sha1.is_hex_digit (Sha1.hex_digit d) = true.
Proof.
  intros Hd.
  assert (Hn : d = Z.of_nat (Z.to_nat d)) by lia.
  assert (Hk : (Z.to_nat d < 16)%nat) by lia.
  rewrite Hn. generalize dependent (Z.to_nat d). intros k _ Hk.
  do 16 (destruct k as [|k]; [reflexivity|]). lia.
Qed.

Lemma hex_is_hex (n : nat) (x : Z) :
  Forall (fun c => Sha1.is_hex_digit c = true) (Sha1.hex n x).
Proof.
  revert x. induction n as [|n IH]; intros x; simpl; [constructor|].
  apply Forall_app. split; [apply IH|].
  constructor; [|constructor]. apply hex_digit_is_hex.
  change 15 with (Z.ones 4). rewrite Z.land_ones by lia.
  apply Z.mod_pos_bound. lia.
Qed.

Lemma sha1_length (s : jsstring) : length (sha1 s) = 40%nat.
Proof.
  unfold sha1, Sha1.sha1, Sha1.hex_of_state.
  rewrite !length_app, !hex_length. done.
Qed.

Lemma sha1_is_hex (s : jsstring) : Forall (fun c => Sha1.is_hex_digit c = true) (sha1 s).
Proof.
  unfold sha1, Sha1.sha1, Sha1.hex_of_state.
  rewrite !Forall_app. repeat split; apply hex_is_hex.
Qed.

(** C1. For every raw item from which the Normalizer produces an Article,
    [url_hash] is present exactly when [canonical_url] is; when present it
    is the SHA-1 digest of the canonical URL and of nothing else, forty
    lowercase hexadecimal digits; two Articles with the same canonical URL,
    produced from any two items under any two hosts, carry the same
    [url_hash]; and the URL https://example.com/a of the item titled
    Breaking News always hashes to the same forty digits. *)
Theorem url_hash_is_digest_of_canonical_url
    (Date_parse : jsstring -> option Z) (sanitizeHtml : jsstring -> jsstring)
    (item : Item) (a : Article) :
  normalizeItem Date_parse sanitizeHtml item = Return a ->
  (is_Some (url_hash a) <-> is_Some (canonical_url a))
  /\ (forall u, canonical_url a = Some u ->
        url_hash a = Some (sha1 u)
        /\ length (sha1 u) = 40%nat
        /\ Forall (fun c => Sha1.is_hex_digit c = true) (sha1 u))
  /\ (forall Date_parse' sanitizeHtml' item' a',
        normalizeItem Date_parse' sanitizeHtml' item' = Return a' ->
        canonical_url a' = canonical_url a -> url_hash a' = url_hash a)
  /\ (exists b,
        normalizeItem Date_parse sanitizeHtml breaking_news = Return b
        /\ canonical_url b = Some (lit "https://example.com/a")
        /\ url_hash b = Some (lit "c4ed1c218d14a0f15bba7044693ec4b0d68e0a63")).
Proof.
  intros H.
  apply normalizeItem_Return in H as (t & u & _ & _ & _ & Hc & Hh & _).
  assert (Hhash : forall d s i b, normalizeItem d s i = Return b ->
            url_hash b = sha1 <$> canonical_url b).
  { intros d s i b Hb.
    apply normalizeItem_Return in Hb as (? & v & _ & _ & _ & Hcb & Hhb & _).
    rewrite Hhb, Hcb. by destruct v. }
  assert (Ha : url_hash a = sha1 <$> canonical_url a).
  { rewrite Hh, Hc. by destruct u. }
  split; [|split; [|split]].
  - rewrite Ha. apply fmap_is_Some.
  - intros v Hv. rewrite Ha, Hv. split; [done|].
    split; [apply sha1_length | apply sha1_is_hex].
  - intros d s i b Hb Heq. rewrite (Hhash _ _ _ _ Hb), Ha. by rewrite Heq.
  - eexists. split; [vm_compute; reflexivity|]. split; vm_compute; reflexivity.
Qed.

Lemma url_hash_is_digest_of_canonical_url_witness :
  (is_Some (url_hash guid_only_article) <-> is_Some (canonical_url guid_only_article))
  /\ length (sha1 (lit "id-123")) = 40%nat.
Proof.
  pose proof (url_hash_is_digest_of_canonical_url parse_nothing keep_all guid_only
                guid_only_article ltac:(vm_compute; reflexivity)) as (Hiff & Hdigest & _).
  split; [exact Hiff|].
  exact (proj1 (proj2 (Hdigest (lit "id-123") eq_refl))).
Defined.

(** ** The canonical URL *)

Lemma trimStart_spaces (l : jsstring) :
  Forall (fun c => is_space c = true) l -> trimStart l = [].
Proof. induction 1 as [|c l Hc _ IH]; simpl; [done|]. by rewrite Hc. Qed.

Lemma trim_spaces (l : jsstring) :
  Forall (fun c => is_space c = true) l -> trim l = [].
Proof. intros H. unfold trim. by rewrite (trimStart_spaces l H). Qed.

(** The canonical URL of an Article, read off the item. *)
Lemma canonical_url_of_source
    (Date_parse : jsstring -> option Z) (sanitizeHtml : jsstring -> jsstring)
    (item : Item) (a : Article) :
  normalizeItem Date_parse sanitizeHtml item = Return a ->
  exists s, url_source item = VStr s /\ canonical_url a = or_null (trim s)
            /\ url_hash a = sha1 <$> or_null (trim s).
Proof.
  intros H. apply normalizeItem_Return in H as (t & u & _ & Hu & _ & Hc & Hh & _).
  apply call_trim_Return in Hu as (s & Hs & ->).
  exists s. rewrite Hh, Hc. repeat split; [done|]. by destruct (trim s).
Qed.

(** C8. For every raw item from which the Normalizer produces an Article,
    [canonical_url] is the trimmed [link] field, else the trimmed [guid]
    field, else absent, a value that is empty after the trim being absent;
    an item with only [guid] set, to id-123, gets the canonical URL id-123. *)
Theorem canonical_url_is_link_else_guid
    (Date_parse : jsstring -> option Z) (sanitizeHtml : jsstring -> jsstring)
    (item : Item) (a : Article) :
  normalizeItem Date_parse sanitizeHtml item = Return a ->
  canonical_url a = canonical_url_spec item
  /\ (exists b, normalizeItem Date_parse sanitizeHtml guid_only = Return b
                /\ canonical_url b = Some (lit "id-123")).
Proof.
  intros H. split.
  - apply canonical_url_of_source in H as (s & Hs & -> & _).
    revert Hs. unfold url_source, canonical_url_spec, field_text, or_else.
    destruct (item_get item "link") as [| |[]|[|c l]|f];
      destruct (item_get item "guid") as [| |[]|[|d g]|f'];
      simpl; intros [= <-]; reflexivity.
  - eexists. split; vm_compute; reflexivity.
Qed.

Lemma canonical_url_is_link_else_guid_witness :
  canonical_url breaking_news_article = canonical_url_spec breaking_news.
Proof.
  exact (proj1 (canonical_url_is_link_else_guid parse_nothing keep_all breaking_news
                  breaking_news_article ltac:(vm_compute; reflexivity))).
Defined.

(** C10. For every raw item whose [link] is a non-empty string of
    whitespace only, an Article that the Normalizer produces has neither
    [canonical_url] nor [url_hash], whatever [guid] holds: a non-empty
    [link] alone decides the canonical URL, and [guid] is consulted when
    [link] is missing, [null] or the empty string. *)
Theorem blank_link_hides_guid
    (Date_parse : jsstring -> option Z) (sanitizeHtml : jsstring -> jsstring)
    (item : Item) (a : Article) :
  normalizeItem Date_parse sanitizeHtml item = Return a ->
  (forall l, item_get item "link" = VStr l -> l ≠ [] ->
     Forall (fun c => is_space c = true) l ->
     canonical_url a = None /\ url_hash a = None)
  /\ (forall l, item_get item "link" = VStr l -> l ≠ [] ->
        canonical_url a = or_null (trim l))
  /\ (forall g, item_get item "link" ∈ [VUndef; VNull; VStr []] ->
        item_get item "guid" = VStr g ->
        canonical_url a = or_null (trim g)).
Proof.
  intros H. apply canonical_url_of_source in H as (s & Hs & Hc & Hh).
  assert (Hlink : forall l, item_get item "link" = VStr l -> l ≠ [] -> s = l).
  { intros l Hl Hne. unfold url_source, or_else in Hs. rewrite Hl in Hs.
    destruct l; [done|]. simpl in Hs. by injection Hs as <-. }
  split; [|split].
  - intros l Hl Hne Hsp. rewrite Hc, Hh, (Hlink l Hl Hne), (trim_spaces l Hsp). done.
  - intros l Hl Hne. by rewrite Hc, (Hlink l Hl Hne).
  - intros g Hl Hg. rewrite Hc. f_equal. f_equal.
    unfold url_source, or_else in Hs. rewrite Hg in Hs.
    rewrite !elem_of_cons in Hl. destruct Hl as [Hl|[Hl|[Hl|Hl]]];
      [| | |by apply elem_of_nil in Hl];
      rewrite Hl in Hs; simpl in Hs; destruct g; simpl in Hs; by injection Hs as <-.
Qed.

Lemma blank_link_hides_guid_witness :
  item_get blank_link "guid" = str "https://example.com/a"
  /\ canonical_url blank_link_article = None /\ url_hash blank_link_article = None.
Proof.
  split; [vm_compute; reflexivity|].
  exact (proj1 (blank_link_hides_guid parse_nothing keep_all blank_link
                  blank_link_article ltac:(vm_compute; reflexivity))
           (lit "   ") ltac:(vm_compute; reflexivity) ltac:(discriminate)
           ltac:(repeat constructor)).
Defined.

(** ** The publication date *)

Lemma publishedRaw_cases (item : Item) :
  truthy (publishedRaw item) = true \/ publishedRaw item = VNull.
Proof.
  unfold publishedRaw, or_else.
  destruct (truthy (item_get item "isoDate")) eqn:Hi; [by left|].
  destruct (truthy (item_get item "pubDate")) eqn:Hp; [by left | by right].
Qed.

(** C2, as the code has it. For every raw item from which the Normalizer
    produces an Article, the date is read from [isoDate] when that field
    holds something, otherwise from [pubDate]; [published_at] is absent
    exactly when neither field holds anything; a string is handed to the
    date parser, and one that does not parse gives the invalid date, which
    is a value and not the absence of one. *)
Theorem published_at_of_first_date_field
    (Date_parse : jsstring -> option Z) (sanitizeHtml : jsstring -> jsstring)
    (item : Item) (a : Article) :
  normalizeItem Date_parse sanitizeHtml item = Return a ->
  publishedRaw item
    = (if truthy (item_get item "isoDate") then item_get item "isoDate"
       else if truthy (item_get item "pubDate") then item_get item "pubDate"
       else VNull)
  /\ (published_at a = None <->
        truthy (item_get item "isoDate") = false /\ truthy (item_get item "pubDate") = false)
  /\ (forall s, publishedRaw item = VStr s ->
        published_at a = Some (date_of_time (Date_parse s)))
  /\ (forall s, publishedRaw item = VStr s -> Date_parse s = None ->
        published_at a = Some InvalidDate).
Proof.
  intros H. apply normalizeItem_Return in H as (t & u & _ & _ & _ & _ & _ & Hd & _).
  assert (Hraw : publishedRaw item
    = (if truthy (item_get item "isoDate") then item_get item "isoDate"
       else if truthy (item_get item "pubDate") then item_get item "pubDate"
       else VNull)) by reflexivity.
  assert (Hstr : forall s, publishedRaw item = VStr s ->
            published_at a = Some (date_of_time (Date_parse s))).
  { intros s Hs. rewrite Hs in Hd.
    destruct (publishedRaw_cases item) as [Ht|Hnull]; [|congruence].
    rewrite Hs in Ht.
    rewrite Ht in Hd. simpl in Hd. by injection Hd as <-. }
  split; [exact Hraw|]. split; [|split; [exact Hstr|]].
  - rewrite Hraw in Hd.
    destruct (truthy (item_get item "isoDate")) eqn:Hi.
    + rewrite Hi in Hd. apply bind_Return in Hd as (d & _ & [= <-]).
      split; [discriminate | intros [? _]; discriminate].
    + destruct (truthy (item_get item "pubDate")) eqn:Hp.
      * rewrite Hp in Hd. apply bind_Return in Hd as (d & _ & [= <-]).
        split; [discriminate | intros [_ ?]; discriminate].
      * simpl in Hd. injection Hd as <-. done.
  - intros s Hs Hnone. by rewrite (Hstr s Hs), Hnone.
Qed.

Lemma published_at_of_first_date_field_witness :
  published_at undated_article = Some InvalidDate.
Proof.
  exact (proj2 (proj2 (proj2 (published_at_of_first_date_field parse_nothing keep_all undated
                  undated_article ltac:(vm_compute; reflexivity))))
           (lit "not a date") ltac:(vm_compute; reflexivity) eq_refl).
Defined.

(** C2, as stated, fails: the item whose [isoDate] is the text
    [not a date], under an engine that reads no date in it, gets the
    invalid date as [published_at], which is not absent. *)
Lemma unparsable_date_is_not_absent :
  ~ (forall (Date_parse : jsstring -> option Z) (sanitizeHtml : jsstring -> jsstring)
            (item : Item) (a : Article),
       normalizeItem Date_parse sanitizeHtml item = Return a ->
       (truthy (publishedRaw item) = false
        \/ exists s, publishedRaw item = VStr s /\ Date_parse s = None) ->
       published_at a = None).
Proof.
  intros H.
  specialize (H parse_nothing keep_all undated _ ltac:(vm_compute; reflexivity)).
  discriminate H. right. exists (lit "not a date"). split; vm_compute; reflexivity.
Qed.

(** ** The image *)
















(** ** The excerpt *)

Lemma collapse_single_spaced (b : bool) (s : jsstring) :
  single_spaced b (collapse_from b s) = true.
Proof.
  revert b. induction s as [|c s IH]; intros b; simpl; [done|].
  destruct (is_space c) eqn:Hc.
  - destruct b; [apply IH|]. simpl. by rewrite IH.
  - simpl. rewrite Hc. apply IH.
Qed.

Lemma single_spaced_collapse (b : bool) (s : jsstring) :
  single_spaced b s = true -> collapse_from b s = s.
Proof.
  revert b. induction s as [|c s IH]; intros b; simpl; [done|].
  destruct (is_space c) eqn:Hc.
  - intros [[Hc32 Hb]%andb_prop Hs]%andb_prop.
    apply N.eqb_eq in Hc32 as ->. destruct b; [done|]. by rewrite (IH _ Hs).
  - intros Hs. by rewrite (IH _ Hs).
Qed.

Lemma single_spaced_weaken (b : bool) (s : jsstring) :
  single_spaced b s = true -> single_spaced false s = true.
Proof.
  destruct s as [|c s]; simpl; [done|]. destruct (is_space c); [|done].
  intros [[-> _]%andb_prop ->]%andb_prop. done.
Qed.

Lemma single_spaced_app_l (b : bool) (x y : jsstring) :
  single_spaced b (x ++ y) = true -> single_spaced b x = true.
Proof.
  revert b. induction x as [|c x IH]; intros b; simpl; [done|].
  destruct (is_space c); [|apply IH].
  intros [-> Hs]%andb_prop. simpl. by apply IH in Hs.
Qed.

Lemma single_spaced_app_r (b : bool) (x y : jsstring) :
  single_spaced b (x ++ y) = true -> single_spaced false y = true.
Proof.
  revert b. induction x as [|c x IH]; intros b; simpl; [apply single_spaced_weaken|].
  destruct (is_space c); [|apply IH]. intros [_ Hs]%andb_prop. by apply IH in Hs.
Qed.

Lemma single_spaced_snoc (b : bool) (x : jsstring) (e : N) :
  is_space e = false -> single_spaced b x = true -> single_spaced b (x ++ [e]) = true.
Proof.
  intros He. revert b. induction x as [|c x IH]; intros b; simpl; [by rewrite He|].
  destruct (is_space c); [|apply IH].
  intros [-> Hs]%andb_prop. simpl. by apply IH.
Qed.

(** What [trimStart] and [trimEnd] take away is whitespace, and what they
    leave has none at that end. *)
Lemma trimStart_split (s : jsstring) :
  exists z, s = z ++ trimStart s /\ Forall (fun c => is_space c = true) z.
Proof.
  induction s as [|c s (z & Hz & Hsp)]; simpl; [by exists []|].
  destruct (is_space c) eqn:Hc; [|by exists []].
  exists (c :: z). split; [by rewrite Hz at 1 | by constructor].
Qed.

Lemma trimStart_clean (s : jsstring) : starts_clean (trimStart s) = true.
Proof.
  induction s as [|c s IH]; simpl; [done|].
  destruct (is_space c) eqn:Hc; [done|]. simpl. by rewrite Hc.
Qed.

Lemma trimStart_fixed (s : jsstring) : starts_clean s = true -> trimStart s = s.
Proof. destruct s as [|c s]; simpl; [done|]. by intros ->%negb_true_iff. Qed.

Lemma trimEnd_split (s : jsstring) :
  exists z, s = trimEnd s ++ z /\ Forall (fun c => is_space c = true) z.
Proof.
  destruct (trimStart_split (rev s)) as (z & Hz & Hsp).
  exists (rev z). split; [|by apply Forall_rev].
  unfold trimEnd. by rewrite <- rev_app_distr, <- Hz, rev_involutive.
Qed.

Lemma trimEnd_clean (s : jsstring) : starts_clean (rev (trimEnd s)) = true.
Proof. unfold trimEnd. rewrite rev_involutive. apply trimStart_clean. Qed.

Lemma trimEnd_fixed (s : jsstring) : starts_clean (rev s) = true -> trimEnd s = s.
Proof. intros H. unfold trimEnd. by rewrite (trimStart_fixed _ H), rev_involutive. Qed.

Lemma starts_clean_prefix (x z : jsstring) :
  starts_clean (x ++ z) = true -> Forall (fun c => is_space c = true) z ->
  starts_clean x = true.
Proof.
  destruct x as [|c x]; [done|]. done.
Qed.

Lemma trimEnd_keeps_clean (s : jsstring) :
  starts_clean s = true -> starts_clean (trimEnd s) = true.
Proof.
  intros H. destruct (trimEnd_split s) as (z & Hz & Hsp).
  rewrite Hz in H. by apply starts_clean_prefix in H.
Qed.

Lemma trimStart_length (s : jsstring) : (length (trimStart s) <= length s)%nat.
Proof.
  destruct (trimStart_split s) as (z & Hz & _). rewrite Hz at 2.
  rewrite length_app. lia.
Qed.

Lemma trimEnd_length (s : jsstring) : (length (trimEnd s) <= length s)%nat.
Proof.
  destruct (trimEnd_split s) as (z & Hz & _). rewrite Hz at 2.
  rewrite length_app. lia.
Qed.

Lemma trim_length (s : jsstring) : (length (trim s) <= length s)%nat.
Proof.
  unfold trim. pose proof (trimEnd_length (trimStart s)). pose proof (trimStart_length s). lia.
Qed.

Lemma trim_tidy (s : jsstring) : single_spaced false s = true -> tidy (trim s).
Proof.
  intros Hs. unfold tidy, trim. split; [|split].
  - destruct (trimStart_split s) as (z & Hz & _).
    destruct (trimEnd_split (trimStart s)) as (z' & Hz' & _).
    rewrite Hz in Hs. apply single_spaced_app_r in Hs.
    rewrite Hz' in Hs. by apply single_spaced_app_l in Hs.
  - apply trimEnd_keeps_clean, trimStart_clean.
  - apply trimEnd_clean.
Qed.

Lemma tidy_fixed (s : jsstring) : tidy s -> trim (collapse_spaces s) = s.
Proof.
  intros (Hs & Hhead & Hlast). unfold collapse_spaces, trim.
  by rewrite (single_spaced_collapse _ _ Hs), (trimStart_fixed _ Hhead), (trimEnd_fixed _ Hlast).
Qed.

(** The normal form that [makeExcerpt] computes first. *)
Lemma normal_form_tidy (s : jsstring) : tidy (trim (collapse_spaces s)).
Proof. apply trim_tidy, collapse_single_spaced. Qed.

(** A truncated excerpt is tidy. *)
Lemma truncated_tidy (n : jsstring) (k : nat) :
  tidy n -> tidy (trim (take k n) ++ [ellipsis]) /\ trim (take k n) = trimEnd (take k n).
Proof.
  intros (Hs & Hhead & _).
  assert (Htake : single_spaced false (take k n) = true).
  { rewrite <- (take_drop k n) in Hs. by apply single_spaced_app_l in Hs. }
  assert (Hclean : starts_clean (take k n) = true).
  { destruct k, n; done. }
  destruct (trim_tidy _ Htake) as (Hs' & Hhead' & Hlast').
  split; [|unfold trim; by rewrite (trimStart_fixed _ Hclean)].
  split; [|split].
  - by apply single_spaced_snoc.
  - destruct (trim (take k n)); [done | exact Hhead'].
  - by rewrite rev_app_distr.
Qed.

Lemma slice0_take (s : jsstring) (e : Z) :
  0 <= e -> slice0 s e = take (Z.to_nat e) s.
Proof.
  intros He. unfold slice0, jslength.
  destruct (e <? 0) eqn:E; [apply Z.ltb_lt in E; lia|].
  destruct (Z.le_gt_cases e (Z.of_nat (length s))) as [Hle|Hgt].
  - by rewrite Z.min_l.
  - rewrite Z.min_r by lia. rewrite Nat2Z.id.
    rewrite !take_ge by lia. done.
Qed.

Lemma makeExcerpt_string (s : jsstring) (max : Z) :
  s ≠ [] ->
  makeExcerpt (VStr s) max
  = Return (Some (let n := trim (collapse_spaces s) in
                  if jslength n <=? max then n
                  else trim (slice0 n (max - 1)) ++ [ellipsis])).
Proof.
  intros Hs. unfold makeExcerpt. destruct s; [done|]. simpl.
  by destruct (jslength _ <=? max).
Qed.

(** Collapsing and trimming remove whitespace only. *)
Lemma filter_text_cons (c : N) (s : jsstring) :
  filter (fun c => is_space c = false) (c :: s)
  = if is_space c then filter (fun c => is_space c = false) s
    else c :: filter (fun c => is_space c = false) s.
Proof.
  rewrite filter_cons. destruct (is_space c) eqn:Hc; by destruct (decide _).
Qed.

Lemma filter_spaces (z : jsstring) :
  Forall (fun c => is_space c = true) z -> filter (fun c => is_space c = false) z = [].
Proof.
  induction 1 as [|c z Hc _ IH]; [done|]. by rewrite filter_text_cons, Hc.
Qed.

Lemma collapse_keeps_text (b : bool) (s : jsstring) :
  filter (fun c => is_space c = false) (collapse_from b s)
  = filter (fun c => is_space c = false) s.
Proof.
  revert b. induction s as [|c s IH]; intros b; [done|].
  rewrite (filter_text_cons c s). cbn [collapse_from].
  destruct (is_space c) eqn:Hc.
  - destruct b; [apply IH|]. rewrite filter_text_cons.
    change (is_space 32) with true. apply IH.
  - by rewrite filter_text_cons, Hc, IH.
Qed.

Lemma trim_keeps_text (s : jsstring) :
  filter (fun c => is_space c = false) (trim s) = filter (fun c => is_space c = false) s.
Proof.
  unfold trim.
  destruct (trimStart_split s) as (z & Hz & Hsp).
  destruct (trimEnd_split (trimStart s)) as (z' & Hz' & Hsp').
  rewrite Hz at 2. rewrite Hz' at 2.
  rewrite !filter_app, (filter_spaces z Hsp), (filter_spaces z' Hsp').
  by rewrite app_nil_r.
Qed.

(** C4, as the code has it. For every input string and every max length
    of at least 1: the builder first collapses every whitespace run to one
    space and trims both ends, keeping all other text; absent or empty
    input yields absent output; otherwise the normal form is returned as it
    is when its length is at most max, and else its first max-1 code units,
    trimmed of trailing whitespace, followed by one ellipsis; the output is
    never longer than max; applied to a non-empty output of its own with
    the same max the builder returns it unchanged, and absent output stays
    absent. *)
Theorem makeExcerpt_bounded_and_stable (s : jsstring) (max : Z) :
  1 <= max ->
  tidy (trim (collapse_spaces s))
  /\ filter (fun c => is_space c = false) (trim (collapse_spaces s))
     = filter (fun c => is_space c = false) s
  /\ makeExcerpt (VStr s) max
     = Return (if decide (s = []) then None
               else if jslength (trim (collapse_spaces s)) <=? max
                    then Some (trim (collapse_spaces s))
                    else Some (trimEnd (take (Z.to_nat (max - 1)) (trim (collapse_spaces s)))
                                 ++ [ellipsis]))
  /\ (forall out, makeExcerpt (VStr s) max = Return (Some out) ->
        jslength out <= max
        /\ (out ≠ [] -> makeExcerpt (VStr out) max = Return (Some out)))
  /\ (makeExcerpt (VStr s) max = Return None -> makeExcerpt VNull max = Return None)
  /\ makeExcerpt VUndef max = Return None
  /\ makeExcerpt VNull max = Return None
  /\ makeExcerpt (VStr []) max = Return None.
Proof.
  intros Hmax. set (n := trim (collapse_spaces s)).
  pose proof (normal_form_tidy s) as Htidy. fold n in Htidy.
  assert (Hout : makeExcerpt (VStr s) max
     = Return (if decide (s = []) then None
               else if jslength n <=? max then Some n
                    else Some (trimEnd (take (Z.to_nat (max - 1)) n) ++ [ellipsis]))).
  { destruct (decide (s = [])) as [->|Hs]; [done|].
    rewrite (makeExcerpt_string s max Hs). fold n. cbv zeta.
    destruct (jslength n <=? max); [done|].
    rewrite slice0_take by lia.
    by rewrite (proj2 (truncated_tidy n (Z.to_nat (max - 1)) Htidy)). }
  split; [exact Htidy|]. split; [|split; [exact Hout|split; [|done]]].
  - unfold n, collapse_spaces. by rewrite trim_keeps_text, collapse_keeps_text.
  - intros out Ho. rewrite Hout in Ho.
    destruct (decide (s = [])) as [->|Hs]; [discriminate|].
    destruct (jslength n <=? max) eqn:Hlen; injection Ho as <-.
    + apply Z.leb_le in Hlen. split; [done|]. intros Hne.
      rewrite (makeExcerpt_string n max Hne). cbv zeta.
      rewrite (tidy_fixed n Htidy). apply Z.leb_le in Hlen. by rewrite Hlen.
    + destruct (truncated_tidy n (Z.to_nat (max - 1)) Htidy) as (Ht & Heq).
      rewrite <- Heq. set (t := trim (take (Z.to_nat (max - 1)) n) ++ [ellipsis]) in *.
      assert (Hbound : jslength t <= max).
      { unfold t, jslength. rewrite length_app. simpl.
        pose proof (trim_length (take (Z.to_nat (max - 1)) n)) as Hl.
        rewrite length_take in Hl. lia. }
      split; [done|]. intros Hne.
      rewrite (makeExcerpt_string t max Hne). cbv zeta.
      rewrite (tidy_fixed t Ht). apply Z.leb_le in Hbound. by rewrite Hbound.
Qed.

Lemma makeExcerpt_bounded_and_stable_witness :
  makeExcerpt (VStr (lit "abc" ++ [ellipsis])) 5 = Return (Some (lit "abc" ++ [ellipsis])).
Proof.
  exact (proj2 (proj1 (proj2 (proj2 (proj2
           (makeExcerpt_bounded_and_stable (lit "abc   def ghi") 5 ltac:(lia)))))
           (lit "abc" ++ [ellipsis]) ltac:(vm_compute; reflexivity))
           ltac:(discriminate)).
Defined.

(** C4, as stated, fails. A string of two spaces is not empty, so the
    builder returns its normal form, the empty string; applied to that
    output the builder returns absent, which is another value. And with a
    max length of 0 the end of the slice counts from the end of the string:
    [abcd] becomes [abc] and the ellipsis, four code units. *)
Lemma excerpt_of_blank_is_not_stable :
  makeExcerpt (str "  ") 220 = Return (Some [])
  /\ makeExcerpt (VStr []) 220 = Return None
  /\ ~ (forall s max out, makeExcerpt (VStr s) max = Return (Some out) ->
          makeExcerpt (VStr out) max = Return (Some out))
  /\ makeExcerpt (str "abcd") 0 = Return (Some (lit "abc" ++ [ellipsis])).
Proof.
  split; [vm_compute; reflexivity|]. split; [vm_compute; reflexivity|].
  split; [|vm_compute; reflexivity].
  intros H. specialize (H (lit "  ") 220 [] ltac:(vm_compute; reflexivity)). discriminate H.
Qed.

(** ** The Feed Fetcher *)

Lemma bind_run {A B} (m : M A) (k : A -> M B) (w : World) :
  (m ≫= k) w
  = match m w with
    | (Return a, w') => k a w'
    | (Throw t, w') => (Throw t, w')
    end.
Proof. reflexivity. Qed.

(** Three attempts, spelled out against the answers of the network. *)
Lemma parseWithRetry_three
    (parse_answer : World -> string -> JsError + Feed) (url : string) (w : World) :
  parseWithRetry parse_answer url 3 w =
    match parse_answer w url with
    | inr feed => (Return feed, w ++ [EvParseURL url])
    | inl _ =>
        match parse_answer (w ++ [EvParseURL url; EvSleep 2000]) url with
        | inr feed => (Return feed, w ++ [EvParseURL url; EvSleep 2000; EvParseURL url])
        | inl _ =>
            let w3 := w ++ [EvParseURL url; EvSleep 2000; EvParseURL url;
                            EvSleep 3000; EvParseURL url] in
            match parse_answer (w ++ [EvParseURL url; EvSleep 2000; EvParseURL url;
                                      EvSleep 3000]) url with
            | inr feed => (Return feed, w3)
            | inl e => (Throw (ThrownError e), w3)
            end
        end
    end.
Proof.
  cbv [parseWithRetry retry_loop try_catch mbind M_bind parseURL sleep mret M_ret throw
       Nat.ltb Nat.leb Nat.eqb].
  change (1000 * Z.of_nat 2) with 2000. change (1000 * Z.of_nat 3) with 3000.
  destruct (parse_answer w url) as [e1|feed]; [|done].
  rewrite <- !app_assoc. simpl.
  destruct (parse_answer _ url) as [e2|feed]; [|done].
  by destruct (parse_answer _ url) as [e3|feed].
Qed.

(** C3, as the code has it. With three attempts allowed, the fetcher asks
    for the feed at most three times, one request after the other, every
    failure of whatever kind leading to the next attempt; it returns the
    first feed it gets and, after three failures, raises the error of the
    third. It sleeps 2000 ms before the second attempt and 3000 ms before
    the third: 1000 ms times the number of the attempt about to be made,
    not of the attempts already made. So a network that is always down
    costs five seconds of sleep, not three. *)
Theorem parseWithRetry_trace
    (parse_answer : World -> string -> JsError + Feed) (url : string) (w : World) :
  parseWithRetry parse_answer url 3 w
  = match parse_answer w url with
    | inr feed => (Return feed, w ++ [EvParseURL url])
    | inl _ =>
        match parse_answer (w ++ [EvParseURL url; EvSleep 2000]) url with
        | inr feed => (Return feed, w ++ [EvParseURL url; EvSleep 2000; EvParseURL url])
        | inl _ =>
            match parse_answer (w ++ [EvParseURL url; EvSleep 2000; EvParseURL url;
                                      EvSleep 3000]) url with
            | inr feed =>
                (Return feed, w ++ [EvParseURL url; EvSleep 2000; EvParseURL url;
                                    EvSleep 3000; EvParseURL url])
            | inl e =>
                (Throw (ThrownError e),
                 w ++ [EvParseURL url; EvSleep 2000; EvParseURL url;
                       EvSleep 3000; EvParseURL url])
            end
        end
    end
  /\ parseWithRetry always_down url 3 []
     = (Throw (ThrownError timeout_error),
        [EvParseURL url; EvSleep 2000; EvParseURL url; EvSleep 3000; EvParseURL url]).
Proof.
  split; [|reflexivity]. rewrite parseWithRetry_three.
  destruct (parse_answer w url); [|done].
  destruct (parse_answer _ url); [|done]. done.
Qed.

(** ** The Ingestion Runner, item by item *)

Section RunnerFacts.

Variable Date_parse : jsstring -> option Z.
Variable sanitizeHtml : jsstring -> jsstring.
Variable parse_answer : World -> string -> JsError + Feed.
Variable query_answer : World -> QueryParams -> JsError + Z.

Lemma lacks_key_fields_not_storable (n : Article) : lacks_key_fields n = not_storable n.
Proof.
  unfold lacks_key_fields, not_storable.
  by destruct (present (Some (title n))), (present (canonical_url n)), (present (url_hash n)).
Qed.



Lemma save_item_Return (raw : Item) (n : Article) (c : Counts) (w : World) :
  normalizeItem Date_parse sanitizeHtml raw = Return n ->
  save_item Date_parse sanitizeHtml query_answer raw c w
  = if not_storable n then (Return (count_skipped c), w)
    else (Return (classify (query_answer w (params_of n)) c), w ++ [EvQuery (params_of n)]).
Proof.
  intros Hn. unfold save_item. rewrite bind_run. unfold lift. rewrite Hn.
  destruct (not_storable n) eqn:Hs; [done|].
  unfold try_catch, insertArticle. rewrite lacks_key_fields_not_storable, Hs.
  rewrite !bind_run. unfold pool_query, classify.
  destruct (query_answer w (params_of n)) as [e|rows]; [done|].
  destruct (rows =? 1); [done|]. by destruct (rows =? 2).
Qed.

Lemma save_item_Throw (raw : Item) (t : Thrown) (c : Counts) (w : World) :
  normalizeItem Date_parse sanitizeHtml raw = Throw t ->
  save_item Date_parse sanitizeHtml query_answer raw c w = (Throw t, w).
Proof. intros Hn. unfold save_item. rewrite bind_run. unfold lift. by rewrite Hn. Qed.

Lemma classify_cases (answer : JsError + Z) (c : Counts) :
  classify answer c = count_inserted c
  \/ classify answer c = count_duplicated c
  \/ classify answer c = count_skipped c.
Proof.
  destruct answer as [e|rows]; simpl; [tauto|].
  destruct (rows =? 1); [tauto|]. destruct (rows =? 2); tauto.
Qed.

End RunnerFacts.


(** ** Failures stay where they happen *)

Lemma bind_raises_errors_only {A B} (o : Outcome A) (k : A -> Outcome B) :
  raises_errors_only o -> (forall a, raises_errors_only (k a)) ->
  raises_errors_only (o ≫= k).
Proof. destruct o as [a|[|e]]; simpl; auto. Qed.

Lemma to_String_raises_errors_only (v : JsVal) : raises_errors_only (to_String v).
Proof.
  destruct v as [| |[]|s|fields]; simpl; try done. by destruct (fields !! "toString").
Qed.

Lemma normalizeItem_raises_errors_only
    (Date_parse : jsstring -> option Z) (sanitizeHtml : jsstring -> jsstring) (item : Item) :
  raises_errors_only (normalizeItem Date_parse sanitizeHtml item).
Proof.
  unfold normalizeItem.
  apply bind_raises_errors_only; [by destruct (or_else _ _)|intros t].
  apply bind_raises_errors_only; [by destruct (url_source _)|intros u].
  apply bind_raises_errors_only; [|intros d].
  { destruct (truthy _); [|done].
    apply bind_raises_errors_only; [|done].
    destruct (publishedRaw item) as [| | | |fields]; try done.
    apply bind_raises_errors_only; [apply (to_String_raises_errors_only (VObj fields)) | done]. }
  apply bind_raises_errors_only; [|intros e].
  { unfold makeExcerpt. destruct (negb _); [done|].
    apply bind_raises_errors_only; [apply to_String_raises_errors_only|intros raw].
    by destruct (_ <=? _). }
  apply bind_raises_errors_only; [|intros c].
  { unfold sanitizeContent. destruct (negb _); [done|].
    apply bind_raises_errors_only; [apply to_String_raises_errors_only | done]. }
  apply bind_raises_errors_only; [|done].
  unfold pickImage. repeat (match goal with |- context [if ?b then _ else _] => destruct b end; try done).
  apply bind_raises_errors_only; [apply to_String_raises_errors_only|intros text].
  by destruct (match_img text).
Qed.

Section RunnerTotal.

Variable Date_parse : jsstring -> option Z.
Variable sanitizeHtml : jsstring -> jsstring.
Variable parse_answer : World -> string -> JsError + Feed.
Variable query_answer : World -> QueryParams -> JsError + Z.




End RunnerTotal.




(** C7, where the code departs from it. The title and the URL are trimmed
    without being converted to a string first, unlike the excerpt source
    and the markup: an item whose title is an object, as an XML element
    with attributes is rendered, makes [normalizeItem] raise a TypeError.
    In [saveFeed] that error leaves the loop over the items: the feed
    reports the zero tally with the error, the item before it having been
    stored already and the ones after it never being looked at. *)
Theorem normalizeItem_raises_on_object_title
    (Date_parse : jsstring -> option Z) (sanitizeHtml : jsstring -> jsstring) :
  normalizeItem Date_parse sanitizeHtml object_title
  = Throw (ThrownError (mkError TypeError "trim is not a function"))
  /\ saveFeed Date_parse sanitizeHtml (serves mixed_feed) stores_all
       "https://example.com/rss" []
     = (Return (mkTally no_counts (Some "trim is not a function")),
        [EvParseURL "https://example.com/rss"; EvQuery (params_of breaking_news_article)]).
Proof. split; vm_compute; reflexivity. Qed.

(** ** Further properties of the pipeline *)

Lemma to_String_convertible (v : JsVal) :
  convertible v -> exists s, to_String v = Return s.
Proof.
  destruct v as [| |[]|s|fields]; simpl; eauto. intros ->. eauto.
Qed.

Lemma or_else_cases (a b : JsVal) : or_else a b = a \/ or_else a b = b.
Proof. unfold or_else. destruct (truthy a); tauto. Qed.

(** X1. The Normalizer returns an Article for every item whose title, link and
    guid are texts or missing and none of whose fields is an object that
    hides [toString]: each field it cannot obtain is absent. *)
Theorem normalizeItem_returns_on_texts
    (Date_parse : jsstring -> option Z) (sanitizeHtml : jsstring -> jsstring)
    (item : Item) :
  text_or_missing (item_get item "title") ->
  text_or_missing (item_get item "link") ->
  text_or_missing (item_get item "guid") ->
  (forall k, convertible (item_get item k)) ->
  exists a, normalizeItem Date_parse sanitizeHtml item = Return a.
Proof.
  intros Ht Hl Hg Hconv.
  assert (Hor : forall a b, convertible a -> convertible b -> convertible (or_else a b)).
  { intros a b Ha Hb. by destruct (or_else_cases a b) as [-> | ->]. }
  assert (Hnull : convertible VNull) by done.
  unfold normalizeItem.
  assert (exists t, call_trim (or_else (item_get item "title") (VStr [])) = Return t) as [t ->].
  { unfold or_else. destruct (item_get item "title") as [| |b|s|f]; simpl in *; try done; eauto.
    destruct s; simpl; eauto. }
  assert (exists u, call_trim (url_source item) = Return u) as [u ->].
  { unfold url_source, or_else.
    destruct (item_get item "link") as [| |b|[|c s]|f]; simpl in *; try done; eauto;
      destruct (item_get item "guid") as [| |b'|[|c' s']|f']; simpl in *; try done; eauto. }
  simpl.
  assert (exists d, (if truthy (publishedRaw item)
                     then new_Date Date_parse (publishedRaw item) ≫= λ d, Return (Some d)
                     else Return None) = Return d) as [d ->].
  { destruct (truthy _); [|eauto].
    assert (convertible (publishedRaw item)) as Hc by (repeat apply Hor; auto).
    destruct (publishedRaw item) as [| |b|s|f] eqn:E; simpl; eauto.
    destruct (to_String_convertible (VObj f) Hc) as [s Hs]. simpl in Hs. rewrite Hs. simpl. eauto. }
  simpl.
  assert (exists e, makeExcerpt (excerptSource item) 220 = Return e) as [e ->].
  { unfold makeExcerpt. destruct (negb _); [eauto|].
    destruct (to_String_convertible (excerptSource item)) as [s ->];
      [repeat apply Hor; auto|]. simpl. destruct (_ <=? _); eauto. }
  simpl.
  assert (exists c, sanitizeContent sanitizeHtml (rawHtml item) = Return c) as [c ->].
  { unfold sanitizeContent. destruct (negb _); [eauto|].
    destruct (to_String_convertible (rawHtml item)) as [s ->];
      [repeat apply Hor; auto|]. simpl. eauto. }
  simpl.
  assert (exists i, pickImage item = Return i) as [i ->].
  { unfold pickImage.
    repeat (match goal with |- context [if ?b then _ else _] => destruct b end; eauto).
    destruct (to_String_convertible
                (or_else (item_get item "content:encoded") (item_get item "content")))
      as [s ->]; [apply Hor; auto|].
    simpl. destruct (match_img s); eauto. }
  simpl. eauto.
Qed.

Lemma normalizeItem_returns_on_texts_witness :
  exists a, normalizeItem parse_nothing keep_all breaking_news = Return a.
Proof.
  apply (normalizeItem_returns_on_texts parse_nothing keep_all breaking_news);
    try exact I.
  intros k. unfold breaking_news, item, item_get.
  destruct (list_to_map _ !! k) as [v|] eqn:E; [|exact I].
  apply elem_of_list_to_map_2 in E.
  rewrite !elem_of_cons in E.
  destruct E as [[= -> ->] | [[= -> ->] | E]]; [exact I | exact I |].
  by apply elem_of_nil in E.
Defined.

Lemma save_items_of_normal_items
    (Date_parse : jsstring -> option Z) (sanitizeHtml : jsstring -> jsstring)
    (query_answer : World -> QueryParams -> JsError + Z)
    (items : list Item) (c : Counts) (w : World) :
  Forall (fun raw => exists n, normalizeItem Date_parse sanitizeHtml raw = Return n) items ->
  exists c' ext,
    save_items Date_parse sanitizeHtml query_answer items c w = (Return c', w ++ ext).
Proof.
  intros Hall. revert c w. induction Hall as [|raw rest [n Hn] _ IH]; intros c w.
  - exists c, []. by rewrite app_nil_r.
  - cbn [save_items]. rewrite bind_run, (save_item_Return _ _ query_answer raw n c w Hn).
    destruct (not_storable n); [apply IH|].
    destruct (IH (classify (query_answer w (params_of n)) c) (w ++ [EvQuery (params_of n)]))
      as (c' & ext & ->).
    exists c', (EvQuery (params_of n) :: ext). by rewrite <- app_assoc.
Qed.

(** X2. A source that fails its first two fetch attempts and succeeds on the
    third: the fetcher returns the parsed feed, and the runner, when every
    item of the feed normalizes, records no error for the source. *)
Theorem third_attempt_succeeds
    (Date_parse : jsstring -> option Z) (sanitizeHtml : jsstring -> jsstring)
    (parse_answer : World -> string -> JsError + Feed)
    (query_answer : World -> QueryParams -> JsError + Z)
    (url : string) (w : World) (e1 e2 : JsError) (feed : Feed) :
  parse_answer w url = inl e1 ->
  parse_answer (w ++ [EvParseURL url; EvSleep 2000]) url = inl e2 ->
  parse_answer (w ++ [EvParseURL url; EvSleep 2000; EvParseURL url; EvSleep 3000]) url
    = inr feed ->
  parseWithRetry parse_answer url 3 w
  = (Return feed,
     w ++ [EvParseURL url; EvSleep 2000; EvParseURL url; EvSleep 3000; EvParseURL url])
  /\ (Forall (fun raw => exists n, normalizeItem Date_parse sanitizeHtml raw = Return n)
        (default [] (feed_items feed)) ->
      exists c ext,
        saveFeed Date_parse sanitizeHtml parse_answer query_answer url w
        = (Return (mkTally c None),
           (w ++ [EvParseURL url; EvSleep 2000; EvParseURL url; EvSleep 3000; EvParseURL url])
             ++ ext)).
Proof.
  intros H1 H2 H3.
  assert (Hfetch : parseWithRetry parse_answer url 3 w
    = (Return feed,
       w ++ [EvParseURL url; EvSleep 2000; EvParseURL url; EvSleep 3000; EvParseURL url])).
  { rewrite parseWithRetry_three, H1, H2. cbv zeta. by rewrite H3. }
  split; [exact Hfetch|]. intros Hall.
  unfold saveFeed, try_catch. rewrite bind_run, Hfetch. cbv zeta. rewrite bind_run.
  destruct (save_items_of_normal_items Date_parse sanitizeHtml query_answer
              _ no_counts
              (w ++ [EvParseURL url; EvSleep 2000; EvParseURL url; EvSleep 3000; EvParseURL url])
              Hall) as (c & ext & ->).
  by exists c, ext.
Qed.

Lemma third_attempt_succeeds_witness :
  parseWithRetry (up_at_third one_item_feed) "https://example.com/rss" 3 []
  = (Return one_item_feed,
     [EvParseURL "https://example.com/rss"; EvSleep 2000;
      EvParseURL "https://example.com/rss"; EvSleep 3000;
      EvParseURL "https://example.com/rss"]).
Proof.
  exact (proj1 (third_attempt_succeeds parse_nothing keep_all (up_at_third one_item_feed)
                  stores_all "https://example.com/rss" [] timeout_error timeout_error
                  one_item_feed eq_refl eq_refl eq_refl)).
Defined.



(** * More of the code *)

(** ** The Normalizer: excerpt, title and keys *)

(** Whenever an Article comes out, the excerpt and the markup are what
    their own steps returned. *)
Lemma normalizeItem_texts
    (Date_parse : jsstring -> option Z) (sanitizeHtml : jsstring -> jsstring)
    (item : Item) (a : Article) :
  normalizeItem Date_parse sanitizeHtml item = Return a ->
  makeExcerpt (excerptSource item) 220 = Return (excerpt a)
  /\ sanitizeContent sanitizeHtml (rawHtml item) = Return (content_html a).
Proof.
  unfold normalizeItem. intros H.
  apply bind_Return in H as (t & Ht & H).
  apply bind_Return in H as (u & Hu & H).
  apply bind_Return in H as (d & Hd & H).
  apply bind_Return in H as (e & He & H).
  apply bind_Return in H as (c & Hc & H).
  apply bind_Return in H as (i & Hi & H).
  injection H as <-. by split.
Qed.

(** Whatever the value it is built from, an excerpt is tidy and bounded. *)
Lemma makeExcerpt_Some (v : JsVal) (max : Z) (out : jsstring) :
  1 <= max -> makeExcerpt v max = Return (Some out) ->
  jslength out <= max /\ tidy out.
Proof.
  intros Hmax. unfold makeExcerpt. destruct (negb (truthy v)); [discriminate|].
  intros (raw & _ & H)%bind_Return.
  pose proof (normal_form_tidy raw) as Htidy.
  destruct (jslength _ <=? max) eqn:Hlen; injection H as <-.
  - apply Z.leb_le in Hlen. by split.
  - rewrite slice0_take by lia. split; [|by apply truncated_tidy].
    unfold jslength. rewrite length_app. simpl.
    pose proof (trim_length (take (Z.to_nat (max - 1)) (trim (collapse_spaces raw)))) as Hl.
    rewrite length_take in Hl. lia.
Qed.

Lemma makeExcerpt_None (v : JsVal) (max : Z) :
  makeExcerpt v max = Return None <-> truthy v = false.
Proof.
  unfold makeExcerpt. destruct (truthy v); simpl; [|done].
  split; [|discriminate]. intros (raw & _ & H)%bind_Return.
  by destruct (_ <=? _).
Qed.

Lemma first_holding_falsy (item : Item) (keys : list string) :
  truthy (first_holding item keys) = false
  <-> forall k, k ∈ keys -> truthy (item_get item k) = false.
Proof.
  induction keys as [|k keys IH]; simpl.
  - split; [|done]. intros _ k Hk. by apply elem_of_nil in Hk.
  - unfold or_else. destruct (truthy (item_get item k)) eqn:Hk.
    + rewrite Hk. split; [done|]. intros H. rewrite <- Hk. apply H. by left.
    + rewrite IH. split.
      * intros H k' [->|Hk']%elem_of_cons; [done | by apply H].
      * intros H k' Hk'. apply H. by right.
Qed.

Lemma first_holding_cases (item : Item) (keys : list string) :
  truthy (first_holding item keys) = true \/ first_holding item keys = VNull.
Proof.
  induction keys as [|k keys IH]; simpl; [by right|].
  unfold or_else. destruct (truthy (item_get item k)) eqn:Hk; [by left | exact IH].
Qed.

(** X4. The excerpt of an Article is built from the first of
    [contentSnippet], [summary], [description] and [content] that holds
    something; it is absent exactly when none of them does; when present it
    is at most 220 code units long, with single spaces as its only
    whitespace and none at either end; and a text whose normal form fits in
    220 code units is kept whole. *)
Theorem excerpt_of_article
    (Date_parse : jsstring -> option Z) (sanitizeHtml : jsstring -> jsstring)
    (item : Item) (a : Article) :
  normalizeItem Date_parse sanitizeHtml item = Return a ->
  makeExcerpt
    (first_holding item ["contentSnippet"; "summary"; "description"; "content"]) 220
    = Return (excerpt a)
  /\ (excerpt a = None <->
        forall k, k ∈ ["contentSnippet"; "summary"; "description"; "content"] ->
          truthy (item_get item k) = false)
  /\ (forall e, excerpt a = Some e -> jslength e <= 220 /\ tidy e)
  /\ (forall s,
        first_holding item ["contentSnippet"; "summary"; "description"; "content"] = VStr s ->
        jslength (trim (collapse_spaces s)) <= 220 ->
        excerpt a = Some (trim (collapse_spaces s))).
Proof.
  intros (He & _)%normalizeItem_texts.
  change (excerptSource item)
    with (first_holding item ["contentSnippet"; "summary"; "description"; "content"]) in He.
  split; [exact He|]. split; [|split].
  - rewrite <- first_holding_falsy, <- makeExcerpt_None. rewrite He.
    split; [by intros -> | by intros [= ->]].
  - intros e Hsome. rewrite Hsome in He. by apply makeExcerpt_Some in He.
  - intros s Hs Hlen. rewrite Hs in He.
    destruct (first_holding_cases item
                ["contentSnippet"; "summary"; "description"; "content"]) as [Ht|Hn];
      [|congruence].
    rewrite Hs in Ht. assert (s ≠ []) as Hne by (by destruct s).
    rewrite (makeExcerpt_string s 220 Hne) in He. cbv zeta in He.
    apply Z.leb_le in Hlen. rewrite Hlen in He. by injection He as <-.
Qed.

Lemma excerpt_of_article_witness :
  excerpt breaking_news_article = None
  <-> forall k, k ∈ ["contentSnippet"; "summary"; "description"; "content"] ->
        truthy (item_get breaking_news k) = false.
Proof.
  exact (proj1 (proj2 (excerpt_of_article parse_nothing keep_all breaking_news
                         breaking_news_article ltac:(vm_compute; reflexivity)))).
Defined.

Lemma or_null_inv (u v : jsstring) : or_null u = Some v -> u = v /\ v ≠ [].
Proof. destruct u; simpl; [discriminate | intros [= <-]; done]. Qed.

Lemma trim_clean (s : jsstring) :
  starts_clean (trim s) = true /\ starts_clean (rev (trim s)) = true.
Proof.
  unfold trim. split; [apply trimEnd_keeps_clean, trimStart_clean | apply trimEnd_clean].
Qed.

Lemma sanitizeContent_None (sanitizeHtml : jsstring -> jsstring) (v : JsVal) :
  sanitizeContent sanitizeHtml v = Return None <-> truthy v = false.
Proof.
  unfold sanitizeContent. destruct (truthy v); simpl; [|done].
  split; [|discriminate]. by intros (text & _ & [=])%bind_Return.
Qed.

(** X5. In every Article the title is the trimmed [title] field, the empty
    string when the field holds nothing, and has no whitespace at either
    end; the canonical URL, when present, is non-empty and has no
    whitespace at either end; the markup is absent exactly when neither
    [content:encoded] nor [content] holds something, and is otherwise what
    the sanitizer makes of the first of the two that does. *)
Theorem article_texts_are_trimmed
    (Date_parse : jsstring -> option Z) (sanitizeHtml : jsstring -> jsstring)
    (item : Item) (a : Article) :
  normalizeItem Date_parse sanitizeHtml item = Return a ->
  (starts_clean (title a) = true /\ starts_clean (rev (title a)) = true)
  /\ (truthy (item_get item "title") = false -> title a = [])
  /\ (forall s, item_get item "title" = VStr s -> title a = trim s)
  /\ (forall u, canonical_url a = Some u ->
        u ≠ [] /\ starts_clean u = true /\ starts_clean (rev u) = true)
  /\ (content_html a = None <->
        truthy (item_get item "content:encoded") = false
        /\ truthy (item_get item "content") = false)
  /\ (forall s, first_holding item ["content:encoded"; "content"] = VStr s ->
        content_html a = Some (sanitizeHtml s)).
Proof.
  intros H. pose proof (normalizeItem_texts _ _ _ _ H) as (_ & Hhtml).
  pose proof (canonical_url_of_source _ _ _ _ H) as (src & _ & Hc & _).
  apply normalizeItem_Return in H as (t & u & Ht & _ & <- & _).
  apply call_trim_Return in Ht as (s0 & Hs0 & ->).
  change (rawHtml item) with (first_holding item ["content:encoded"; "content"]) in Hhtml.
  split; [apply trim_clean|]. split; [|split; [|split; [|split]]].
  - intros Hfalsy. unfold or_else in Hs0. rewrite Hfalsy in Hs0. by injection Hs0 as <-.
  - intros s Hs. unfold or_else in Hs0. rewrite Hs in Hs0.
    destruct s; simpl in Hs0; by injection Hs0 as <-.
  - intros v Hv. rewrite Hc in Hv. apply or_null_inv in Hv as [<- Hne].
    split; [done | apply trim_clean].
  - assert (Hiff : content_html a = None
                   <-> truthy (first_holding item ["content:encoded"; "content"]) = false).
    { rewrite <- (sanitizeContent_None sanitizeHtml), Hhtml.
      split; [by intros -> | by intros [= ->]]. }
    rewrite Hiff, first_holding_falsy. split.
    + intros Hall. split; apply Hall; [by left | right; by left].
    + intros [H1 H2] k [->|[->|Hk]%elem_of_cons]%elem_of_cons;
        [done | done | by apply elem_of_nil in Hk].
  - intros s Hs. rewrite Hs in Hhtml.
    destruct (first_holding_cases item ["content:encoded"; "content"]) as [Ht|Hn];
      [|congruence].
    rewrite Hs in Ht. unfold sanitizeContent in Hhtml. rewrite Ht in Hhtml.
    simpl in Hhtml. by injection Hhtml as <-.
Qed.

Lemma article_texts_are_trimmed_witness :
  title breaking_news_article = trim (lit "Breaking News").
Proof.
  exact (proj1 (proj2 (proj2 (article_texts_are_trimmed parse_nothing keep_all breaking_news
                  breaking_news_article ltac:(vm_compute; reflexivity))))
           (lit "Breaking News") ltac:(vm_compute; reflexivity)).
Defined.

(** X6. An item whose [link] and [guid] both hold nothing gets an Article
    with neither canonical URL nor URL hash, and an item whose [title]
    holds nothing gets the empty title; the runner counts either as skipped
    and sends nothing to the store. *)
Theorem keyless_items_are_skipped
    (Date_parse : jsstring -> option Z) (sanitizeHtml : jsstring -> jsstring)
    (query_answer : World -> QueryParams -> JsError + Z)
    (raw : Item) (n : Article) (c : Counts) (w : World) :
  normalizeItem Date_parse sanitizeHtml raw = Return n ->
  (truthy (item_get raw "link") = false -> truthy (item_get raw "guid") = false ->
     canonical_url n = None /\ url_hash n = None
     /\ save_item Date_parse sanitizeHtml query_answer raw c w = (Return (count_skipped c), w))
  /\ (truthy (item_get raw "title") = false ->
      title n = []
      /\ save_item Date_parse sanitizeHtml query_answer raw c w = (Return (count_skipped c), w)).
Proof.
  intros Hn. rewrite (save_item_Return _ _ query_answer raw n c w Hn).
  pose proof (canonical_url_of_source _ _ _ _ Hn) as (src & Hsrc & Hc & Hh).
  pose proof (normalizeItem_Return _ _ _ _ Hn) as (t & u & Ht & _ & Htitle & _).
  split.
  - intros Hl Hg. unfold url_source, or_else in Hsrc. rewrite Hl, Hg in Hsrc.
    injection Hsrc as <-. unfold not_storable. rewrite Hc, Hh. done.
  - intros Hfalsy. unfold or_else in Ht. rewrite Hfalsy in Ht.
    injection Ht as <-. unfold not_storable. rewrite Htitle.
    split; [done|]. simpl. by rewrite !orb_true_r.
Qed.

Lemma keyless_items_are_skipped_witness :
  title guid_only_article = []
  /\ save_item parse_nothing keep_all stores_all guid_only no_counts []
     = (Return (count_skipped no_counts), []).
Proof.
  exact (proj2 (keyless_items_are_skipped parse_nothing keep_all stores_all guid_only
                  guid_only_article no_counts [] ltac:(vm_compute; reflexivity))
           ltac:(vm_compute; reflexivity)).
Defined.

(** ** The Feed Fetcher with any number of attempts *)

Lemma attempts_trace_nonempty (url : string) (i k : nat) :
  (1 <= k)%nat -> attempts_trace url i k ≠ [].
Proof.
  destruct k; [lia|]. intros _. cbn [attempts_trace].
  by destruct (1 <? i)%nat.
Qed.

Lemma retry_loop_trace
    (parse_answer : World -> string -> JsError + Feed) (url : string)
    (attempts todo i : nat) (lastErr : Thrown) (w : World) :
  (1 <= todo)%nat -> (i + todo = S attempts)%nat ->
  exists k,
    (1 <= k <= todo)%nat
    /\ retry_loop parse_answer url attempts i todo lastErr w
       = (settled (parse_answer (w ++ removelast (attempts_trace url i k)) url),
          w ++ attempts_trace url i k)
    /\ (forall e, parse_answer (w ++ removelast (attempts_trace url i k)) url = inl e ->
          k = todo)
    /\ (forall j, (1 <= j < k)%nat ->
          exists e, parse_answer (w ++ removelast (attempts_trace url i j)) url = inl e).
Proof.
  revert i lastErr w. induction todo as [|todo IH]; intros i lastErr w Htodo Hi; [lia|].
  cbn [retry_loop]. unfold try_catch. rewrite bind_run.
  set (pre := if (1 <? i)%nat then [EvSleep (1000 * Z.of_nat i)] else []).
  assert (Hpre : (if (1 <? i)%nat then sleep (1000 * Z.of_nat i) else mret ()) w
                 = (Return (), w ++ pre)).
  { unfold pre. destruct (1 <? i)%nat; [done|]. by rewrite app_nil_r. }
  rewrite Hpre. unfold parseURL.
  assert (Hone : attempts_trace url i 1 = pre ++ [EvParseURL url]) by done.
  assert (Hlast : forall l : list Event, removelast (pre ++ EvParseURL url :: l)
                    = pre ++ removelast (EvParseURL url :: l)).
  { intros l. by rewrite removelast_app. }
  destruct (parse_answer (w ++ pre) url) as [e|feed] eqn:Hans.
  - destruct (i =? attempts)%nat eqn:Hcap.
    + apply Nat.eqb_eq in Hcap. exists 1%nat. rewrite Hone, removelast_last, Hans.
      simpl. rewrite <- app_assoc. split; [lia|]. split; [done|].
      split; [intros _ _; lia | intros j Hj; lia].
    + apply Nat.eqb_neq in Hcap.
      destruct (IH (S i) (ThrownError e) ((w ++ pre) ++ [EvParseURL url]))
        as (k & Hk & Hrun & Hfail & Hearlier); [lia | lia |].
      exists (S k). split; [lia|]. cbn [attempts_trace]. fold pre.
      assert (Hw : forall l : list Event,
                ((w ++ pre) ++ [EvParseURL url]) ++ l = w ++ pre ++ EvParseURL url :: l).
      { intros l. by rewrite <- !app_assoc. }
      rewrite !Hw in Hrun. rewrite !Hw in Hfail.
      assert (Hrem : forall m, (1 <= m)%nat ->
                removelast (pre ++ EvParseURL url :: attempts_trace url (S i) m)
                = pre ++ EvParseURL url :: removelast (attempts_trace url (S i) m)).
      { intros m Hm. rewrite Hlast. f_equal.
        pose proof (attempts_trace_nonempty url (S i) m Hm) as Hne.
        by destruct (attempts_trace url (S i) m). }
      rewrite Hrem by lia. split; [exact Hrun|].
      split; [intros e' Hl; by rewrite (Hfail e' Hl)|].
      intros j Hj. destruct j as [|[|j]]; [lia | |].
      * exists e. rewrite Hone, removelast_last. exact Hans.
      * destruct (Hearlier (S j) ltac:(lia)) as [e' He'].
        exists e'.
        change (attempts_trace url i (S (S j)))
          with (pre ++ EvParseURL url :: attempts_trace url (S i) (S j)).
        rewrite Hrem by lia. by rewrite Hw in He'.
  - exists 1%nat. rewrite Hone, removelast_last, Hans. simpl. rewrite <- app_assoc.
    split; [lia|]. split; [done|]. split; [intros e; discriminate | intros j Hj; lia].
Qed.

Lemma slept_app (a b : list Event) : slept (a ++ b) = slept a + slept b.
Proof. induction a as [|[] a IH]; simpl; lia. Qed.

Lemma slept_attempts (url : string) (i k : nat) :
  (2 <= i)%nat ->
  slept (attempts_trace url i k) = 500 * Z.of_nat k * (2 * Z.of_nat i + Z.of_nat k - 1).
Proof.
  revert i. induction k as [|k IH]; intros i Hi; [simpl; lia|].
  cbn [attempts_trace]. destruct (1 <? i)%nat eqn:E; [|apply Nat.ltb_ge in E; lia].
  simpl. rewrite IH by lia. nia.
Qed.

Lemma requests_attempts (url : string) (i k : nat) :
  length (filter (fun e => is_request e = true) (attempts_trace url i k)) = k.
Proof.
  revert i. induction k as [|k IH]; intros i; [done|].
  cbn [attempts_trace]. rewrite filter_app, length_app, filter_cons.
  destruct (decide _) as [_|Hn]; [|by destruct Hn]. simpl. rewrite IH.
  by destruct (1 <? i)%nat.
Qed.

(** X7. [parseWithRetry] with any number of attempts. With none allowed it
    makes no request and raises [undefined]. With [attempts] of at least 1
    it makes [k] requests, between 1 and [attempts], sleeping before
    request number [j >= 2] for 1000 ms times [j] and at no other time; all
    requests before the last one failed; the outcome is what the last
    request settled to, and it is a failure only when all [attempts]
    requests were made. The sleep adds up to 500 (k (k + 1) - 2) ms. *)
Theorem parseWithRetry_any_attempts
    (parse_answer : World -> string -> JsError + Feed) (url : string)
    (attempts : nat) (w : World) :
  (attempts = 0%nat ->
     parseWithRetry parse_answer url attempts w = (Throw ThrownUndefined, w))
  /\ ((1 <= attempts)%nat ->
      exists k,
        (1 <= k <= attempts)%nat
        /\ parseWithRetry parse_answer url attempts w
           = (settled (parse_answer (w ++ removelast (attempts_trace url 1 k)) url),
              w ++ attempts_trace url 1 k)
        /\ (forall e, parse_answer (w ++ removelast (attempts_trace url 1 k)) url = inl e ->
              k = attempts)
        /\ (forall j, (1 <= j < k)%nat ->
              exists e, parse_answer (w ++ removelast (attempts_trace url 1 j)) url = inl e)
        /\ length (filter (fun e => is_request e = true) (attempts_trace url 1 k)) = k
        /\ slept (attempts_trace url 1 k) = 500 * (Z.of_nat k * (Z.of_nat k + 1) - 2)).
Proof.
  split; [by intros -> |]. intros Hn.
  destruct (retry_loop_trace parse_answer url attempts attempts 1 ThrownUndefined w Hn eq_refl)
    as (k & Hk & Hrun & Hfail & Hearlier).
  exists k. split; [done|]. split; [exact Hrun|]. split; [exact Hfail|].
  split; [exact Hearlier|]. split; [apply requests_attempts|].
  destruct k as [|k]; [lia|]. cbn [attempts_trace]. simpl.
  rewrite slept_attempts by lia. nia.
Qed.

Lemma parseWithRetry_any_attempts_witness :
  exists k,
    (1 <= k <= 5)%nat
    /\ parseWithRetry always_down "https://example.com/rss" 5 []
       = (settled (always_down ([] ++ removelast (attempts_trace "https://example.com/rss" 1 k))
                     "https://example.com/rss"),
          [] ++ attempts_trace "https://example.com/rss" 1 k)
    /\ k = 5%nat.
Proof.
  destruct (proj2 (parseWithRetry_any_attempts always_down "https://example.com/rss" 5 [])
              ltac:(lia)) as (k & Hk & Hrun & Hfail & _).
  exists k. split; [exact Hk|]. split; [exact Hrun|].
  exact (Hfail timeout_error eq_refl).
Defined.

(** ** The store call and the tallies *)

(** X8. [insertArticle] on any Article, normalized or not. When the title,
    the canonical URL or the URL hash is missing or empty it sends nothing
    and reports neither insertion nor duplicate. Otherwise it sends exactly
    one INSERT; a rejection is raised to the caller; a result is reported
    as inserted for [affectedRows] 1, duplicated for 2, and neither, with a
    reason, for any other count. No result is both inserted and
    duplicated, and an empty excerpt or markup is bound as [null]. *)
Theorem insertArticle_contract
    (query_answer : World -> QueryParams -> JsError + Z) (a : Article) (w : World) :
  (lacks_key_fields a = true <->
     title a = [] \/ canonical_url a ∈ [None; Some []] \/ url_hash a ∈ [None; Some []])
  /\ (lacks_key_fields a = true ->
      insertArticle query_answer a w
      = (Return (mkInsertResult false false (Some MissingKeyFields)), w))
  /\ (lacks_key_fields a = false ->
      insertArticle query_answer a w
      = (match query_answer w (params_of a) with
         | inl e => Throw (ThrownError e)
         | inr rows =>
             Return (mkInsertResult (rows =? 1) (rows =? 2)
                       (if (rows =? 1) || (rows =? 2) then None
                        else Some (UnexpectedAffectedRows rows)))
         end,
         w ++ [EvQuery (params_of a)]))
  /\ (forall r w', insertArticle query_answer a w = (Return r, w') ->
        inserted r && duplicated r = false
        /\ (reason r = None <-> inserted r || duplicated r = true))
  /\ q_excerpt (params_of a) ≠ Some []
  /\ q_content_html (params_of a) ≠ Some [].
Proof.
  assert (Hrun : lacks_key_fields a = false ->
      insertArticle query_answer a w
      = (match query_answer w (params_of a) with
         | inl e => Throw (ThrownError e)
         | inr rows =>
             Return (mkInsertResult (rows =? 1) (rows =? 2)
                       (if (rows =? 1) || (rows =? 2) then None
                        else Some (UnexpectedAffectedRows rows)))
         end,
         w ++ [EvQuery (params_of a)])).
  { intros Hk. unfold insertArticle. rewrite Hk, bind_run. unfold pool_query.
    destruct (query_answer w (params_of a)) as [e|rows]; [done|].
    destruct (rows =? 1) eqn:H1; [apply Z.eqb_eq in H1 as ->; done|].
    by destruct (rows =? 2). }
  split; [|split; [|split; [exact Hrun|split; [|split]]]].
  - unfold lacks_key_fields. rewrite !elem_of_cons.
    destruct (title a) as [|c t], (canonical_url a) as [[|c' u]|], (url_hash a) as [[|c'' h]|];
      simpl; split; try done; try tauto;
      intros [?|[[?|[?|?%elem_of_nil]]|[?|[?|?%elem_of_nil]]]]; done.
  - intros Hk. unfold insertArticle. by rewrite Hk.
  - intros r w'. destruct (lacks_key_fields a) eqn:Hk.
    + unfold insertArticle. rewrite Hk. intros [= <- <-]. simpl. done.
    + rewrite (Hrun eq_refl). destruct (query_answer w (params_of a)) as [e|rows]; [done|].
      intros [= <- <-]. simpl.
      destruct (rows =? 1) eqn:H1, (rows =? 2) eqn:H2; simpl; try done.
      apply Z.eqb_eq in H1, H2. lia.
  - simpl. by destruct (excerpt a) as [[|c e]|].
  - simpl. by destruct (content_html a) as [[|c e]|].
Qed.

Lemma insertArticle_contract_witness :
  insertArticle stores_all blank_link_article []
  = (Return (mkInsertResult false false (Some MissingKeyFields)), []).
Proof.
  exact (proj1 (proj2 (insertArticle_contract stores_all blank_link_article []))
           ltac:(vm_compute; reflexivity)).
Defined.

Section Accounting.

Variable Date_parse : jsstring -> option Z.
Variable sanitizeHtml : jsstring -> jsstring.
Variable parse_answer : World -> string -> JsError + Feed.
Variable query_answer : World -> QueryParams -> JsError + Z.

Lemma classify_total (answer : JsError + Z) (c : Counts) :
  total (classify answer c) = S (total c)
  /\ (n_inserted c <= n_inserted (classify answer c))%nat
  /\ (n_duplicated c <= n_duplicated (classify answer c))%nat
  /\ (n_skipped c <= n_skipped (classify answer c))%nat.
Proof.
  destruct (classify_cases answer c) as [-> | [-> | ->]];
    unfold total; simpl; lia.
Qed.

(** The loop over the items sends nothing but INSERTs, at most one for
    each item, and when it completes every item has been counted once. *)
Lemma save_items_accounts (items : list Item) (c : Counts) (w : World) :
  exists o ext,
    save_items Date_parse sanitizeHtml query_answer items c w = (o, w ++ ext)
    /\ Forall (fun e => is_query e = true) ext
    /\ (length ext <= length items)%nat
    /\ raises_errors_only o
    /\ forall c', o = Return c' ->
         total c' = (total c + length items)%nat
         /\ (n_inserted c <= n_inserted c')%nat
         /\ (n_duplicated c <= n_duplicated c')%nat
         /\ (n_skipped c <= n_skipped c')%nat
         /\ (total c' - n_skipped c' <= total c - n_skipped c + length ext)%nat.
Proof.
  revert c w. induction items as [|raw rest IH]; intros c w.
  - exists (Return c), []. rewrite app_nil_r.
    split; [done|]. split; [constructor|]. split; [done|]. split; [done|].
    intros c' [= <-]. unfold total. simpl. lia.
  - cbn [save_items]. rewrite bind_run.
    pose proof (normalizeItem_raises_errors_only Date_parse sanitizeHtml raw) as Hsafe.
    destruct (normalizeItem Date_parse sanitizeHtml raw) as [n|t] eqn:Hn.
    + rewrite (save_item_Return _ _ query_answer raw n c w Hn).
      destruct (not_storable n).
      * destruct (IH (count_skipped c) w) as (o & ext & -> & Hq & Hlen & Ho & Hc).
        exists o, ext. split; [done|]. split; [done|]. split; [simpl; lia|].
        split; [done|]. intros c' Hc'. specialize (Hc c' Hc').
        unfold total in *. simpl in *. lia.
      * pose proof (classify_total (query_answer w (params_of n)) c) as Hcl.
        destruct (IH (classify (query_answer w (params_of n)) c)
                     (w ++ [EvQuery (params_of n)])) as (o & ext & -> & Hq & Hlen & Ho & Hc).
        exists o, (EvQuery (params_of n) :: ext). rewrite <- app_assoc.
        split; [done|]. split; [by constructor|]. split; [simpl; lia|].
        split; [done|]. intros c' Hc'. specialize (Hc c' Hc').
        unfold total in *. simpl in *. lia.
    + rewrite (save_item_Throw _ _ query_answer raw t c w Hn).
      exists (Throw t), []. rewrite app_nil_r.
      split; [done|]. split; [constructor|]. split; [simpl; lia|]. split; [done|]. done.
Qed.

(** What a feed adds to the trace: the requests and sleeps of the fetcher,
    then INSERTs only. *)
Lemma saveFeed_trace (url : string) (w : World) :
  exists t fetching storing,
    saveFeed Date_parse sanitizeHtml parse_answer query_answer url w
    = (Return t, w ++ fetching ++ storing)
    /\ fetching ∈ [ [EvParseURL url];
                    [EvParseURL url; EvSleep 2000; EvParseURL url];
                    [EvParseURL url; EvSleep 2000; EvParseURL url;
                     EvSleep 3000; EvParseURL url] ]
    /\ Forall (fun e => is_query e = true) storing
    /\ snd (parseWithRetry parse_answer url 3 w) = w ++ fetching
    /\ (error t ≠ None -> counts t = no_counts)
    /\ (n_inserted (counts t) + n_duplicated (counts t) <= length storing)%nat
    /\ (error t = None ->
        exists feed, fst (parseWithRetry parse_answer url 3 w) = Return feed
          /\ total (counts t) = length (default [] (feed_items feed))
          /\ (length storing <= length (default [] (feed_items feed)))%nat).
Proof.
  unfold saveFeed, try_catch. rewrite bind_run.
  assert (Hfetch : exists o fetching,
    parseWithRetry parse_answer url 3 w = (o, w ++ fetching)
    /\ fetching ∈ [ [EvParseURL url];
                    [EvParseURL url; EvSleep 2000; EvParseURL url];
                    [EvParseURL url; EvSleep 2000; EvParseURL url;
                     EvSleep 3000; EvParseURL url] ]
    /\ raises_errors_only o).
  { rewrite parseWithRetry_three.
    destruct (parse_answer w url); [|eexists _, _; split; [done|]; split; [|done]; by left].
    destruct (parse_answer _ url);
      [|eexists _, _; split; [done|]; split; [|done]; right; by left].
    cbv zeta.
    destruct (parse_answer _ url); eexists _, _; (split; [done|]; split; [|done]);
      right; right; by left. }
  destruct Hfetch as (o & fetching & Hrun & Hin & Ho). rewrite Hrun.
  destruct o as [feed|[|e]]; [| done |].
  - cbv zeta. rewrite bind_run.
    destruct (save_items_accounts (default [] (feed_items feed)) no_counts (w ++ fetching))
      as (o & storing & -> & Hq & Hlen & Hso & Hc).
    rewrite <- app_assoc.
    destruct o as [c|[|e]]; [| done |].
    + exists (mkTally c None), fetching, storing. simpl.
      destruct (Hc c eq_refl) as (Ht & _ & _ & _ & Hsent). unfold total in Hsent, Ht.
      simpl in Hsent, Ht.
      split; [done|]. split; [done|]. split; [done|]. split; [done|]. split; [done|].
      split; [lia|]. intros _. exists feed. unfold total. split; [done|]. split; [lia | done].
    + exists (mkTally no_counts (Some (err_message e))), fetching, storing. simpl.
      repeat split; try done. lia.
  - exists (mkTally no_counts (Some (err_message e))), fetching, []. simpl.
    rewrite app_nil_r. repeat split; try done.
Qed.

End Accounting.

(** X9. What a tally means. Whenever [saveFeed] returns, the trace has
    grown by the requests and sleeps of the fetcher followed by INSERTs
    only, and inserted plus duplicated is at most the number of INSERTs
    sent. A tally without error counts every item of the fetched feed
    exactly once, with at most one INSERT for each item. A tally with an
    error is the zero tally, whatever was stored before the error. *)
Theorem tally_accounts_for_items
    (Date_parse : jsstring -> option Z) (sanitizeHtml : jsstring -> jsstring)
    (parse_answer : World -> string -> JsError + Feed)
    (query_answer : World -> QueryParams -> JsError + Z)
    (url : string) (w w' : World) (t : Tally) :
  saveFeed Date_parse sanitizeHtml parse_answer query_answer url w = (Return t, w') ->
  exists fetching storing,
    w' = w ++ fetching ++ storing
    /\ snd (parseWithRetry parse_answer url 3 w) = w ++ fetching
    /\ Forall (fun e => is_query e = true) storing
    /\ (n_inserted (counts t) + n_duplicated (counts t) <= length storing)%nat
    /\ (error t ≠ None -> counts t = no_counts)
    /\ (error t = None ->
        exists feed, fst (parseWithRetry parse_answer url 3 w) = Return feed
          /\ total (counts t) = length (default [] (feed_items feed))
          /\ (length storing <= length (default [] (feed_items feed)))%nat).
Proof.
  intros Hrun.
  destruct (saveFeed_trace Date_parse sanitizeHtml parse_answer query_answer url w)
    as (t0 & fetching & storing & Hs & _ & Hq & Hsnd & Herr & Hsent & Hok).
  rewrite Hs in Hrun. injection Hrun as <- <-.
  exists fetching, storing. by repeat split.
Qed.

Lemma tally_accounts_for_items_witness :
  exists fetching storing,
    [EvParseURL "https://example.com/rss"; EvQuery (params_of breaking_news_article)]
    = [] ++ fetching ++ storing
    /\ Forall (fun e => is_query e = true) storing
    /\ (error (mkTally no_counts (Some "trim is not a function")) ≠ None ->
        counts (mkTally no_counts (Some "trim is not a function")) = no_counts).
Proof.
  destruct (tally_accounts_for_items parse_nothing keep_all (serves mixed_feed) stores_all
              "https://example.com/rss" []
              [EvParseURL "https://example.com/rss"; EvQuery (params_of breaking_news_article)]
              (mkTally no_counts (Some "trim is not a function"))
              ltac:(vm_compute; reflexivity))
    as (fetching & storing & Hw & _ & Hq & _ & Herr & _).
  exists fetching, storing. by repeat split.
Defined.

Lemma queries_are_silent (storing : list Event) :
  Forall (fun e => is_query e = true) storing ->
  filter (fun e => is_request e = true) storing = [] /\ slept storing = 0.
Proof.
  induction 1 as [|e storing He _ [IH1 IH2]]; [done|].
  destruct e; try discriminate. rewrite filter_cons.
  destruct (decide _) as [Hd|_]; [discriminate Hd|]. by split.
Qed.

(** X10. A run is bounded by its configuration. Whatever the network and
    the store answer, the loop over [n] sources completes, makes between
    [n] and [3 n] requests, sleeps at most 5000 ms for each source, and
    never lowers a counter; the rows it reports as inserted or duplicated
    are at most the INSERTs it sent. *)
Theorem run_is_bounded
    (Date_parse : jsstring -> option Z) (sanitizeHtml : jsstring -> jsstring)
    (parse_answer : World -> string -> JsError + Feed)
    (query_answer : World -> QueryParams -> JsError + Z)
    (feeds : list string) (totals : Counts) (w : World) :
  exists totals' ext,
    run_feeds Date_parse sanitizeHtml parse_answer query_answer feeds totals w
    = (Return totals', w ++ ext)
    /\ (length feeds <= length (filter (fun e => is_request e = true) ext)
        <= 3 * length feeds)%nat
    /\ 0 <= slept ext <= 5000 * Z.of_nat (length feeds)
    /\ (n_inserted totals <= n_inserted totals')%nat
    /\ (n_duplicated totals <= n_duplicated totals')%nat
    /\ (n_skipped totals <= n_skipped totals')%nat
    /\ ((n_inserted totals' - n_inserted totals) + (n_duplicated totals' - n_duplicated totals)
        <= length (filter (fun e => is_query e = true) ext))%nat.
Proof.
  revert totals w. induction feeds as [|url rest IH]; intros totals w.
  - exists totals, []. rewrite app_nil_r. simpl. repeat split; lia.
  - cbn [run_feeds]. rewrite bind_run.
    destruct (saveFeed_trace Date_parse sanitizeHtml parse_answer query_answer url w)
      as (t & fetching & storing & -> & Hin & Hq & _ & _ & Hsent & _).
    destruct (IH (add_counts totals (counts t)) (w ++ fetching ++ storing))
      as (totals' & ext & -> & Hreq & Hslept & Hi & Hd & Hs & Hsent').
    exists totals', (fetching ++ storing ++ ext). rewrite <- !app_assoc.
    split; [done|].
    destruct (queries_are_silent storing Hq) as (Hnoreq & Hnosleep).
    assert (Hqs : length (filter (fun e => is_query e = true) storing) = length storing).
    { clear -Hq. induction Hq as [|e l He _ IH]; [done|].
      rewrite filter_cons. destruct (decide _); [simpl; lia | done]. }
    rewrite !filter_app, !length_app, !slept_app, Hnoreq, Hnosleep, Hqs.
    simpl in Hi, Hd, Hs, Hsent'. simpl length.
    rewrite !elem_of_cons in Hin.
    destruct Hin as [-> | [-> | [-> | Hin]]]; [| | |by apply elem_of_nil in Hin];
      simpl; repeat split; lia.
Qed.

(** ** The server: paging *)

Lemma parseInt10_cases (s : jsstring) :
  parseInt10 s = NaN \/ (exists z, parseInt10 s = Int z /\ Z.abs z < 2 ^ 53)
  \/ exists negative, parseInt10 s = Huge negative.
Proof.
  unfold parseInt10. destruct (digits_value _ _ _) as [v|]; [|by left]. right.
  unfold exactly. destruct (Z.abs _ <? 2 ^ 53) eqn:E; [left | right; eauto].
  apply Z.ltb_lt in E. eauto.
Qed.

(** X11. Paging of [GET /api/articles]. Whenever the two parameters can be
    read, the limit is an integer between 1 and 100 and the page is an
    integer of at least 1 (or a number too large to follow); the offset is
    then exactly (page - 1) * limit, never negative. A page that does not
    parse, or parses to 0 or less, is page 1. A limit that does not parse,
    or parses to 0, is 20, while a negative limit is 1 and one above 100
    is 100. *)
Theorem paging_is_clamped (page_raw limit_raw : JsVal) (read_page read_limit : Num) :
  parseInt page_raw = Return read_page ->
  parseInt limit_raw = Return read_limit ->
  exists page limit,
    page_of page_raw = Return page /\ limit_of limit_raw = Return limit
    /\ (exists l, limit = Int l /\ 1 <= l <= 100
          /\ ((read_limit = NaN \/ read_limit = Int 0) -> l = 20)
          /\ (forall z, read_limit = Int z -> z < 0 -> l = 1)
          /\ (forall z, read_limit = Int z -> 1 <= z <= 100 -> l = z)
          /\ (forall z, read_limit = Int z -> 100 < z -> l = 100)
          /\ ((exists p, page = Int p /\ 1 <= p
                 /\ (forall z, read_page = Int z -> p = Z.max 1 z)
                 /\ (read_page = NaN -> p = 1)
                 /\ offset_of page limit = exactly ((p - 1) * l)
                 /\ 0 <= (p - 1) * l
                 /\ ((p - 1) * l < 2 ^ 53 -> offset_of page limit = Int ((p - 1) * l)))
              \/ (page = Huge false /\ read_page = Huge false
                  /\ offset_of page limit = Huge false))).
Proof.
  unfold parseInt, page_of, limit_of, parseInt.
  intros (sp & -> & [= <-])%bind_Return (sl & -> & [= <-])%bind_Return. simpl.
  eexists _, _. split; [done|]. split; [done|].
  assert (Hlimit : exists l, num_min 100 (num_max 1 (num_or (parseInt10 sl) (Int 20))) = Int l
            /\ 1 <= l <= 100
            /\ ((parseInt10 sl = NaN \/ parseInt10 sl = Int 0) -> l = 20)
            /\ (forall z, parseInt10 sl = Int z -> z < 0 -> l = 1)
            /\ (forall z, parseInt10 sl = Int z -> 1 <= z <= 100 -> l = z)
            /\ (forall z, parseInt10 sl = Int z -> 100 < z -> l = 100)).
  { destruct (parseInt10_cases sl) as [-> | [(z & -> & _) | (sign & ->)]].
    - exists 20. split; [done|]. split; [lia|]. split; [done|].
      repeat split; intros z [=].
    - destruct z as [|q|q].
      + exists 20. split; [done|]. split; [lia|]. split; [done|].
        repeat split; intros z [= <-]; lia.
      + exists (Z.min 100 (Z.max 1 (Z.pos q))). split; [done|]. split; [lia|].
        split; [intros [[=] | [=]]|].
        repeat split; intros z [= <-]; lia.
      + exists 1. split; [done|]. split; [lia|].
        split; [intros [[=] | [=]]|].
        repeat split; intros z [= <-]; lia.
    - destruct sign.
      + exists 1. split; [done|]. split; [lia|]. split; [intros [[=] | [=]]|].
        repeat split; intros z [=].
      + exists 100. split; [done|]. split; [lia|]. split; [intros [[=] | [=]]|].
        repeat split; intros z [=]. }
  destruct Hlimit as (l & -> & Hl & H20 & H1 & Hz & H100).
  exists l. split; [done|]. split; [done|]. split; [done|]. split; [done|].
  split; [done|]. split; [done|].
  destruct (parseInt10_cases sp) as [-> | [(z & -> & Hbound) | ([] & ->)]].
  - left. exists 1. simpl. unfold offset_of, num_pred, num_mul. simpl exactly.
    repeat split; try done; try lia; by intros z [=].
  - left. exists (Z.max 1 z).
    assert (Hpage : num_max 1 (num_or (Int z) (Int 1)) = Int (Z.max 1 z)).
    { by destruct z. }
    rewrite Hpage. split; [done|]. split; [lia|]. split; [by intros z' [= <-]|].
    split; [done|].
    assert (Hoff : offset_of (Int (Z.max 1 z)) (Int l) = exactly ((Z.max 1 z - 1) * l)).
    { unfold offset_of, num_pred, exactly.
      destruct (Z.abs (Z.max 1 z - 1) <? 2 ^ 53) eqn:E; [done|].
      apply Z.ltb_ge in E. lia. }
    split; [exact Hoff|]. split; [nia|]. intros Hsmall. rewrite Hoff. unfold exactly.
    destruct (Z.abs _ <? 2 ^ 53) eqn:E; [done|]. apply Z.ltb_ge in E. nia.
  - left. exists 1. simpl. unfold offset_of, num_pred, num_mul. simpl exactly.
    repeat split; try done; try lia; by intros z [=].
  - right. simpl. unfold offset_of. simpl.
    destruct (l =? 0) eqn:E; [apply Z.eqb_eq in E; lia|].
    destruct (l <? 0) eqn:E'; [apply Z.ltb_lt in E'; lia|]. done.
Qed.

Lemma paging_is_clamped_witness :
  exists page limit,
    page_of (str "3") = Return page /\ limit_of (str "250") = Return limit
    /\ limit = Int 100 /\ offset_of page limit = Int 200.
Proof.
  destruct (paging_is_clamped (str "3") (str "250") (Int 3) (Int 250)
              ltac:(vm_compute; reflexivity) ltac:(vm_compute; reflexivity))
    as (page & limit & Hp & Hl & (l & Hlim & Hrange & _ & _ & _ & H100 & Hpage)).
  exists page, limit. split; [exact Hp|]. split; [exact Hl|].
  rewrite (H100 250 eq_refl ltac:(lia)) in *.
  split; [exact Hlim|].
  destruct Hpage as [(p & Hpg & _ & Hmax & _ & _ & _ & Hoff) | (_ & [=] & _)].
  rewrite (Hmax 3 eq_refl) in Hoff. exact (Hoff ltac:(lia)).
Defined.

(** ** The server: the handlers *)







(** X13. [POST /api/important] always answers and never raises. Without a
    canonical URL in the body it answers 400 and sends nothing. With a
    canonical URL that is a non-empty string, and a publication date that
    can be read, it sends exactly one upsert, whose six parameters start
    with the SHA-1 of the URL as posted (not trimmed) and the URL itself,
    and answers 200 with that hash, or 500 when the store rejects the
    statement. A bookmark posted with the canonical URL of a normalized
    Article is keyed by that Article's [url_hash]. *)
Theorem post_important_bookmarks
    (Row : Type) (Date_parse : jsstring -> option Z)
    (write_answer : DbTrace -> Sent -> JsError + Z)
    (req_body : Item) (w : DbTrace) :
  exists resp sent,
    post_important Row Date_parse write_answer req_body w = (Return resp, w ++ sent)
    /\ Forall (fun st => statement st = UpsertImportant
                         /\ length (bound st) = placeholders (statement st)) sent
    /\ (length sent <= 1)%nat
    /\ (truthy (item_get req_body "canonical_url") = false ->
        resp = mkResponse Row 400 (Refused Row "canonical_url obbligatoria") /\ sent = [])
    /\ (forall u, item_get req_body "canonical_url" = VStr u -> u ≠ [] ->
        convertible (item_get req_body "published_at") ->
        exists title image excerpt date,
          sent = [mkSent UpsertImportant
                    [PString (sha1 u); PValue (VStr u); title; image; excerpt; date]]
          /\ (date = PNull <-> truthy (field_or_null req_body "published_at") = false)
          /\ resp = match write_answer w (mkSent UpsertImportant
                             [PString (sha1 u); PValue (VStr u); title; image; excerpt; date]) with
                    | inr _ => mkResponse Row 200 (Bookmarked Row (sha1 u))
                    | inl _ => internal_error_ok_false Row
                    end)
    /\ (forall sanitizeHtml item a u,
          normalizeItem Date_parse sanitizeHtml item = Return a ->
          canonical_url a = Some u ->
          item_get req_body "canonical_url" = VStr u ->
          status Row resp = 200%nat ->
          exists h, body Row resp = Bookmarked Row h /\ url_hash a = Some h).
Proof.
  unfold post_important, try_catchDb.
  destruct (truthy (item_get req_body "canonical_url")) eqn:Hc; simpl negb; cbv iota.
  2:{ exists (mkResponse Row 400 (Refused Row "canonical_url obbligatoria")), [].
      rewrite app_nil_r. split; [done|]. split; [constructor|]. split; [simpl; lia|].
      split; [done|]. split.
      - intros u Hu Hne. rewrite Hu in Hc. by destruct u.
      - intros sh item a u _ _ Hu. rewrite Hu in Hc. intros [=]. }
  set (published := field_or_null req_body "published_at").
  assert (Hpub : convertible (item_get req_body "published_at") -> convertible published).
  { unfold published, field_or_null. by destruct (item_get req_body "published_at"). }
  destruct (if truthy published
            then new_Date Date_parse published ≫= λ d, Return (PDate d)
            else Return PNull) as [date|t] eqn:Hdate;
    (destruct (to_String (item_get req_body "canonical_url")) as [text|t'] eqn:Htext;
     [|exists (internal_error_ok_false Row), []; rewrite app_nil_r;
       split; [done|]; split; [constructor|]; split; [simpl; lia|];
       split; [done|]; split;
       [intros u Hu; rewrite Hu in Htext; discriminate
       |intros sh item a u _ _ Hu; rewrite Hu in Htext; discriminate]]);
    unfold mbind, Db_bind, liftDb, query, mret, Db_ret.
  2:{ exists (internal_error_ok_false Row), []. rewrite app_nil_r.
      split; [done|]. split; [constructor|]. split; [simpl; lia|].
      split; [done|]. split.
      - intros u Hu Hne Hconv. apply Hpub in Hconv.
        destruct (truthy published); [|discriminate].
        destruct published as [| |b|s|f]; try discriminate.
        simpl in Hconv, Hdate. by rewrite Hconv in Hdate.
      - intros sh item a u _ _ _ [=]. }
  assert (Hnull : date = PNull <-> truthy published = false).
  { destruct (truthy published); [|by injection Hdate as <-].
    apply bind_Return in Hdate as (d & _ & [= <-]). done. }
  assert (Hu : forall u, item_get req_body "canonical_url" = VStr u -> text = u).
  { intros u Hu. rewrite Hu in Htext. by injection Htext. }
  simpl.
  destruct (write_answer w (mkSent UpsertImportant
              [PString (sha1 text); PValue (item_get req_body "canonical_url");
               param_of (field_or_null req_body "title");
               param_of (field_or_null req_body "image_url");
               param_of (field_or_null req_body "excerpt"); date])) as [e|rows] eqn:Hans.
  - eexists (internal_error_ok_false Row), [_]. split; [done|].
    split; [by repeat constructor|]. split; [simpl; lia|]. split; [done|]. split.
    + intros u Hcu Hne _. rewrite <- Hcu, <- (Hu u Hcu).
      eexists _, _, _, _. split; [done|]. split; [exact Hnull|]. by rewrite Hans.
    + intros sh item a u _ _ _ [=].
  - eexists (mkResponse Row 200 (Bookmarked Row (sha1 text))), [_]. split; [done|].
    split; [by repeat constructor|]. split; [simpl; lia|]. split; [done|]. split.
    + intros u Hcu Hne _. rewrite <- Hcu, <- (Hu u Hcu).
      eexists _, _, _, _. split; [done|]. split; [exact Hnull|]. by rewrite Hans.
    + intros sh item a u Ha Hca Hcu _. exists (sha1 text). split; [done|].
      apply canonical_url_of_source in Ha as (src & _ & Hcan & Hhash).
      rewrite Hhash, <- Hcan, Hca, (Hu u Hcu). done.
Qed.

Lemma post_important_bookmarks_witness :
  exists resp sent,
    post_important unit parse_nothing (fun _ _ => inr 1) breaking_news [] = (Return resp, [] ++ sent)
    /\ resp = mkResponse unit 400 (Refused unit "canonical_url obbligatoria") /\ sent = [].
Proof.
  destruct (post_important_bookmarks unit parse_nothing (fun _ _ => inr 1) breaking_news [])
    as (resp & sent & Hrun & _ & _ & Hmissing & _).
  exists resp, sent. split; [exact Hrun|]. exact (Hmissing ltac:(vm_compute; reflexivity)).
Defined.

Lemma delete_important_run
    (Row : Type) (write_answer : DbTrace -> Sent -> JsError + Z)
    (hash : jsstring) (w : DbTrace) :
  delete_important Row write_answer hash w
  = if decide (length hash = 40%nat)
    then (Return match write_answer w (mkSent DeleteImportant [PString hash]) with
                 | inl _ => internal_error_ok_false Row
                 | inr affectedRows =>
                     mkResponse Row 200 (Deleted Row (bool_decide (1 <= affectedRows)))
                 end,
          w ++ [mkSent DeleteImportant [PString hash]])
    else (Return (mkResponse Row 400 (Refused Row "hash non valido")), w).
Proof.
  unfold delete_important, try_catchDb, jslength.
  destruct (decide (length hash = 40%nat)) as [Hlen|Hlen].
  - destruct hash as [|c hash]; [done|]. simpl truthy. simpl negb. rewrite orb_false_l.
    destruct (Z.eqb_spec (Z.of_nat (length (c :: hash))) 40) as [Heq|Hne]; [|lia].
    unfold mbind, Db_bind, query, mret, Db_ret. cbn beta iota delta [negb].
    destruct (write_answer w (mkSent DeleteImportant [PString (c :: hash)])) as [e|n];
      [reflexivity|].
    do 3 f_equal. destruct (Z.ltb_spec 0 n); case_bool_decide; done || lia.
  - destruct hash as [|c hash]; [reflexivity|]. simpl truthy. simpl negb.
    rewrite orb_false_l.
    destruct (Z.eqb_spec (Z.of_nat (length (c :: hash))) 40) as [Heq|Hne]; [lia|].
    reflexivity.
Qed.

(** X14. [DELETE /api/important/:hash] checks the length of the hash and
    nothing else. A hash that is not 40 code units long is answered 400
    and the store is not touched. Any string of 40 code units, hexadecimal
    or not, is bound to one DELETE statement; the answer is 200 with
    [deleted] true exactly when the store reports at least one affected
    row, and 500 when the store rejects the statement. *)
Theorem delete_important_checks_length_only
    (Row : Type) (write_answer : DbTrace -> Sent -> JsError + Z)
    (hash : jsstring) (w : DbTrace) :
  (length hash ≠ 40%nat ->
   delete_important Row write_answer hash w
   = (Return (mkResponse Row 400 (Refused Row "hash non valido")), w))
  /\ (length hash = 40%nat ->
      delete_important Row write_answer hash w
      = (Return match write_answer w (mkSent DeleteImportant [PString hash]) with
                | inl _ => internal_error_ok_false Row
                | inr affectedRows => mkResponse Row 200 (Deleted Row (bool_decide (1 <= affectedRows)))
                end,
         w ++ [mkSent DeleteImportant [PString hash]])).
Proof.
  rewrite delete_important_run. split; intros Hlen.
  - by destruct (decide (length hash = 40%nat)).
  - by destruct (decide (length hash = 40%nat)).
Qed.

Lemma delete_important_checks_length_only_witness :
  delete_important unit (fun _ _ => inr 1) (lit "abc") []
  = (Return (mkResponse unit 400 (Refused unit "hash non valido")), [])
  /\ delete_important unit (fun _ _ => inr 0) (lit "not a digest, yet forty code units long!") []
     = (Return (mkResponse unit 200 (Deleted unit false)),
        [mkSent DeleteImportant [PString (lit "not a digest, yet forty code units long!")]]).
Proof.
  split.
  - apply (delete_important_checks_length_only unit (fun _ _ => inr 1) (lit "abc") []).
    vm_compute. discriminate.
  - apply (delete_important_checks_length_only unit (fun _ _ => inr 0)
             (lit "not a digest, yet forty code units long!") []).
    vm_compute. reflexivity.
Defined.

(** X15. A bookmark can be removed with the hash that [POST /api/important]
    returned: when the POST answers with a [url_hash], it has bound that
    hash as the first parameter of its upsert, and a DELETE of the same
    hash passes the length check and binds the same string to its one
    DELETE statement; it is never answered 400. *)
Theorem posted_hash_deletes
    (Row : Type) (Date_parse : jsstring -> option Z)
    (write_answer : DbTrace -> Sent -> JsError + Z)
    (req_body : Item) (w w' : DbTrace) (posted : Response Row) (h : jsstring) :
  post_important Row Date_parse write_answer req_body w = (Return posted, w') ->
  body Row posted = Bookmarked Row h ->
  (exists rest, w' = w ++ [mkSent UpsertImportant (PString h :: rest)])
  /\ forall w'', exists resp,
       delete_important Row write_answer h w''
       = (Return resp, w'' ++ [mkSent DeleteImportant [PString h]])
       /\ status Row resp ≠ 400%nat.
Proof.
  intros Hpost Hbody.
  assert (Hh : (exists rest, w' = w ++ [mkSent UpsertImportant (PString h :: rest)])
               /\ length h = 40%nat).
  { revert Hpost. unfold post_important, try_catchDb.
    destruct (truthy (item_get req_body "canonical_url")); simpl negb; cbv iota.
    2:{ intros [= <- <-]. discriminate. }
    destruct (if truthy (field_or_null req_body "published_at")
              then new_Date Date_parse (field_or_null req_body "published_at")
                     ≫= λ d, Return (PDate d)
              else Return PNull) as [date|t];
      (destruct (to_String (item_get req_body "canonical_url")) as [text|t'];
       [|intros [= <- <-]; discriminate]);
      unfold mbind, Db_bind, liftDb, query, mret, Db_ret; simpl.
    2:{ intros [= <- <-]. discriminate. }
    destruct (write_answer w _) as [e|n]; intros [= <- <-]; [discriminate|].
    injection Hbody as <-. split; [by eexists|apply sha1_length]. }
  destruct Hh as [Hsent Hlen]. split; [exact Hsent|]. intros w''.
  rewrite delete_important_run. destruct (decide (length h = 40%nat)); [|done].
  eexists. split; [reflexivity|].
  destruct (write_answer w'' (mkSent DeleteImportant [PString h])); simpl; lia.
Qed.

Lemma posted_hash_deletes_witness :
  exists resp,
    delete_important unit (fun _ _ => inr 1) (sha1 (lit "https://example.com/a")) []
    = (Return resp, [] ++ [mkSent DeleteImportant [PString (sha1 (lit "https://example.com/a"))]])
    /\ status unit resp ≠ 400%nat.
Proof.
  refine (proj2 (posted_hash_deletes unit parse_nothing (fun _ _ => inr 1)
            (item [("canonical_url", str "https://example.com/a")]) [] _ _ _ _ _) []).
  - vm_compute. reflexivity.
  - reflexivity.
Defined.

(** ** The preview scripts *)

Lemma slice0_prefix (s : jsstring) (n : nat) : slice0 s (Z.of_nat n) = take n s.
Proof.
  unfold slice0, jslength.
  destruct (Z.ltb_spec (Z.of_nat n) 0) as [Hneg|_]; [lia|].
  destruct (decide (n <= length s)%nat) as [Hle|Hgt].
  - by rewrite Z.min_l, Nat2Z.id by lia.
  - rewrite Z.min_r, Nat2Z.id by lia. rewrite !take_ge; [done|lia|lia].
Qed.

(** X16. [prettyItemSample] raises a TypeError on a missing item, which
    the Normalizer accepts. On an item whose snippet can be converted to
    text it returns a sample whose [contentSnippet] is undefined when the
    item has no snippet, else the first 140 code units of its text. The
    [link] it shows is the untrimmed source of the canonical URL: whenever
    the Normalizer gives the item a canonical URL, that URL is the shown
    link, trimmed. *)
Theorem prettyItemSample_shows (item : Item) :
  (item = Nullish ->
   (exists e, FetchPreview.prettyItemSample item = Throw (ThrownError e)
              /\ err_name e = TypeError)
   /\ forall Date_parse sanitizeHtml,
        exists a, normalizeItem Date_parse sanitizeHtml item = Return a)
  /\ (item ≠ Nullish -> convertible (item_get item "contentSnippet") ->
      exists sample text,
        FetchPreview.prettyItemSample item = Return sample
        /\ to_String (item_get item "contentSnippet") = Return text
        /\ FetchPreview.Sample.contentSnippet sample
           = (if truthy (item_get item "contentSnippet") then VStr (take 140 text) else VUndef)
        /\ FetchPreview.Sample.link sample
           = or_else (item_get item "link") (item_get item "guid"))
  /\ (forall Date_parse sanitizeHtml a u sample,
        normalizeItem Date_parse sanitizeHtml item = Return a ->
        canonical_url a = Some u ->
        FetchPreview.prettyItemSample item = Return sample ->
        exists s, FetchPreview.Sample.link sample = VStr s /\ trim s = u).
Proof.
  split; [|split].
  - intros ->. split; [by eexists|]. intros Dp sh. by eexists.
  - intros Hobj Hconv. destruct item as [|fields]; [done|].
    destruct (to_String_convertible _ Hconv) as [text Htext].
    unfold FetchPreview.prettyItemSample, FetchPreview.get.
    destruct (truthy (item_get (ItemObj fields) "contentSnippet")); simpl mbind.
    + simpl in Htext. rewrite Htext. simpl mbind. eexists _, text. split; [reflexivity|].
      split; [done|]. split; [|done]. simpl.
      change 140 with (Z.of_nat 140). by rewrite slice0_prefix.
    + eexists _, text. by repeat split.
  - intros Dp sh a u sample Ha Hu Hsample.
    apply canonical_url_of_source in Ha as (s & Hsrc & Hcan & _).
    rewrite Hu in Hcan. destruct item as [|fields]; [done|].
    assert (Hlink : FetchPreview.Sample.link sample
                    = or_else (item_get (ItemObj fields) "link")
                              (item_get (ItemObj fields) "guid")).
    { revert Hsample. unfold FetchPreview.prettyItemSample, FetchPreview.get. simpl mbind.
      destruct (truthy (default VUndef (fields !! "contentSnippet"))); simpl mbind.
      - destruct (to_String _); simpl mbind; [|done]. by intros [= <-].
      - by intros [= <-]. }
    exists s. rewrite Hlink. revert Hsrc. unfold url_source, or_else.
    destruct (truthy (item_get (ItemObj fields) "link")).
    + intros ->. split; [done|]. by destruct (trim s); simplify_eq/=.
    + destruct (truthy (item_get (ItemObj fields) "guid")).
      * intros ->. split; [done|]. by destruct (trim s); simplify_eq/=.
      * intros [= <-]. done.
Qed.

Lemma prettyItemSample_shows_witness :
  exists sample text,
    FetchPreview.prettyItemSample breaking_news = Return sample
    /\ to_String (item_get breaking_news "contentSnippet") = Return text
    /\ FetchPreview.Sample.contentSnippet sample
       = (if truthy (item_get breaking_news "contentSnippet")
          then VStr (take 140 text) else VUndef)
    /\ FetchPreview.Sample.link sample
       = or_else (item_get breaking_news "link") (item_get breaking_news "guid").
Proof.
  apply (proj1 (proj2 (prettyItemSample_shows breaking_news))).
  - discriminate.
  - vm_compute. exact I.
Defined.

Lemma requests_app {Line} (a b : Screen Line) : requests (a ++ b) = requests a ++ requests b.
Proof. apply omap_app. Qed.

Lemma error_lines_app {Line} (a b : Screen Line) :
  error_lines (a ++ b) = error_lines a ++ error_lines b.
Proof. apply omap_app. Qed.

Lemma outputs_app (a b : Screen PreviewNormalized.Line) :
  outputs (a ++ b) = outputs a ++ outputs b.
Proof. apply omap_app. Qed.

Lemma samples_app (a b : Screen FetchPreview.Line) : samples (a ++ b) = samples a ++ samples b.
Proof. apply omap_app. Qed.

Lemma waited_app {Line} (a b : Screen Line) : waited (a ++ b) = waited a + waited b.
Proof.
  induction a as [|ev a IH]; [done|]. simpl. rewrite IH. destruct ev; lia.
Qed.

(** Three attempts of a preview script, spelled out against the answers of
    the network. *)
Lemma preview_retry_three {Line}
    (note : nat -> nat -> string -> Line)
    (parse_answer : Screen Line -> string -> JsError + Feed) (url : string) (w : Screen Line) :
  Preview.parseWithRetry Line note parse_answer url 3 w =
    match parse_answer w url with
    | inr feed => (Return feed, w ++ [Requested url])
    | inl _ =>
        let w2 := w ++ [Requested url; Waited 2000; Logged (note 2 3 url)]%nat in
        match parse_answer w2 url with
        | inr feed => (Return feed, w2 ++ [Requested url])
        | inl _ =>
            let w3 := w2 ++ [Requested url; Waited 3000; Logged (note 3 3 url)]%nat in
            match parse_answer w3 url with
            | inr feed => (Return feed, w3 ++ [Requested url])
            | inl e => (Throw (ThrownError e), w3 ++ [Requested url])
            end
        end
    end.
Proof.
  cbv [Preview.parseWithRetry Preview.retry_loop try_catchC mbind Preview.C_bind
       Preview.parseURL wait log mret Preview.C_ret throwC Nat.ltb Nat.leb Nat.eqb].
  change (1000 * Z.of_nat 2) with 2000. change (1000 * Z.of_nat 3) with 3000.
  destruct (parse_answer w url) as [e1|feed]; [|done].
  rewrite <- !app_assoc. simpl.
  destruct (parse_answer _ url) as [e2|feed]; [|done].
  by destruct (parse_answer _ url) as [e3|feed].
Qed.

(** What three attempts can leave on the screen. *)
Lemma preview_retry_bounds {Line}
    (note : nat -> nat -> string -> Line)
    (parse_answer : Screen Line -> string -> JsError + Feed) (url : string) (w : Screen Line) :
  exists o ext,
    Preview.parseWithRetry Line note parse_answer url 3 w = (o, w ++ ext)
    /\ raises_errors_only o
    /\ (exists n, (1 <= n <= 3)%nat /\ requests ext = replicate n url)
    /\ 0 <= waited ext <= 5000
    /\ error_lines ext = [].
Proof.
  rewrite preview_retry_three.
  destruct (parse_answer w url) as [e1|feed].
  2:{ eexists _, _. split; [done|]. split; [done|]. split; [exists 1%nat; split; [lia|done]|]. by simpl. }
  cbv zeta. destruct (parse_answer _ url) as [e2|feed].
  2:{ eexists _, _. rewrite <- app_assoc. split; [done|]. split; [done|].
      split; [exists 2%nat; split; [lia|done]|]. by simpl. }
  destruct (parse_answer _ url) as [e3|feed];
    (eexists _, _; rewrite <- !app_assoc; split; [done|]; split; [done|];
     split; [exists 3%nat; split; [lia|done]|]; by simpl).
Qed.

Lemma output_of_short (a : Article) :
  short_preview
    (PreviewNormalized.Output.content_html_preview (PreviewNormalized.output_of a)).
Proof.
  unfold PreviewNormalized.output_of. simpl.
  destruct (present (content_html a)); [|done].
  destruct (content_html a) as [text|]; [|done]. simpl.
  exists (slice0 text 120). split; [done|].
  change 120 with (Z.of_nat 120). rewrite slice0_prefix, length_take. lia.
Qed.

(** The loop over the items to show: it shows the outputs of the items it
    could normalize, in order, and stops at the first it could not. *)
Lemma output_loop_shows
    (Date_parse : jsstring -> option Z) (sanitizeHtml : jsstring -> jsstring)
    (items : list Item) (todo : nat) :
  forall (i : nat) (w : Screen PreviewNormalized.Line),
    (i + todo <= length items)%nat ->
    exists o ext articles,
      PreviewNormalized.output_loop Date_parse sanitizeHtml items i todo w = (o, w ++ ext)
      /\ requests ext = [] /\ waited ext = 0 /\ error_lines ext = []
      /\ outputs ext = PreviewNormalized.output_of <$> articles
      /\ Forall2 (fun raw a => normalizeItem Date_parse sanitizeHtml raw = Return a)
           (take (length articles) (drop i items)) articles
      /\ match o with
         | Return _ => length articles = todo
         | Throw t =>
             (length articles < todo)%nat
             /\ exists raw e,
                  items !! (i + length articles)%nat = Some raw
                  /\ t = ThrownError e
                  /\ normalizeItem Date_parse sanitizeHtml raw = Throw (ThrownError e)
         end.
Proof.
  induction todo as [|todo IH]; intros i w Hlen.
  - exists (Return tt), [], []. rewrite app_nil_r. simpl.
    repeat split; done || constructor.
  - destruct (lookup_lt_is_Some_2 items i) as [raw Hraw]; [lia|].
    cbn [PreviewNormalized.output_loop]. rewrite Hraw. cbn [default from_option]. unfold id.
    unfold mbind, Preview.C_bind, liftC, log.
    destruct (normalizeItem Date_parse sanitizeHtml raw) as [a|t] eqn:Ha.
    + destruct (IH (S i) ((w ++ [Logged (PreviewNormalized.NormalizedHeading (i + 1))])
                          ++ [Logged (PreviewNormalized.OutputShown
                                        (PreviewNormalized.output_of a))]))
        as (o & ext & articles & Hrun & Hreq & Hwait & Herr & Hout & Hall & Ho); [lia|].
      rewrite Hrun.
      exists o, ([Logged (PreviewNormalized.NormalizedHeading (i + 1));
                  Logged (PreviewNormalized.OutputShown (PreviewNormalized.output_of a))]
                 ++ ext), (a :: articles).
      split; [by rewrite <- !app_assoc|].
      split; [by rewrite requests_app, Hreq|].
      split; [by rewrite waited_app, Hwait|].
      split; [by rewrite error_lines_app, Herr|].
      split; [by rewrite outputs_app, Hout|].
      split.
      { rewrite (drop_S _ _ _ Hraw). simpl. by constructor. }
      destruct o as [u|t].
      * simpl. lia.
      * destruct Ho as (Hlt & raw' & e & Hraw' & -> & He). split; [simpl; lia|].
        exists raw', e. split; [|done]. simpl. by rewrite <- Nat.add_succ_comm.
    + pose proof (normalizeItem_raises_errors_only Date_parse sanitizeHtml raw) as Herr.
      rewrite Ha in Herr. destruct t as [|e]; [done|].
      exists (Throw (ThrownError e)), [], []. rewrite app_nil_r. simpl.
      split; [done|]. do 4 (split; [done|]). split; [constructor|].
      split; [lia|]. exists raw, e. by rewrite Nat.add_0_r.
Qed.

Ltac console :=
  cbv [mbind mret Preview.C_bind Preview.C_ret log log_error messageC throwC];
  rewrite <- ?app_assoc; try done.

(** One feed in [previewNormalized.js], against what the three attempts
    gave. *)
Lemma previewNormalizedFeed_run
    (Date_parse : jsstring -> option Z) (sanitizeHtml : jsstring -> jsstring)
    (parse_answer : Screen PreviewNormalized.Line -> string -> JsError + Feed)
    (url : string) (w : Screen PreviewNormalized.Line) (o : Outcome Feed)
    (tried : Screen PreviewNormalized.Line) :
  let w0 := w ++ [Logged PreviewNormalized.Separator; Logged (PreviewNormalized.FeedUrl url);
                  Logged PreviewNormalized.Rule] in
  Preview.parseWithRetry PreviewNormalized.Line PreviewNormalized.RetryNote parse_answer url 3 w0
  = (o, w0 ++ tried) ->
  raises_errors_only o ->
  exists ext articles,
    PreviewNormalized.previewNormalizedFeed Date_parse sanitizeHtml parse_answer url w
    = (Return tt, w0 ++ tried ++ ext)
    /\ requests ext = [] /\ waited ext = 0
    /\ outputs ext = PreviewNormalized.output_of <$> articles
    /\ match o with
       | Throw t =>
           articles = []
           /\ exists e, t = ThrownError e
                        /\ error_lines ext = [PreviewNormalized.ReadError (err_message e)]
       | Return feed =>
           let items := default [] (feed_items feed) in
           Forall2 (fun raw a => normalizeItem Date_parse sanitizeHtml raw = Return a)
             (take (length articles) items) articles
           /\ ((length articles = Nat.min (length items) 2 /\ error_lines ext = [])
               \/ ((length articles < Nat.min (length items) 2)%nat
                   /\ exists raw e,
                        items !! length articles = Some raw
                        /\ normalizeItem Date_parse sanitizeHtml raw = Throw (ThrownError e)
                        /\ error_lines ext = [PreviewNormalized.ReadError (err_message e)]))
       end.
Proof.
  intros w0 Hretry Herrors.
  assert (Hopen :
    PreviewNormalized.previewNormalizedFeed Date_parse sanitizeHtml parse_answer url w
    = match o with
      | Return feed =>
          let items := default [] (feed_items feed) in
          let w1 := (w0 ++ tried)
                    ++ [Logged (PreviewNormalized.FeedTitle (feed_title feed));
                        Logged (PreviewNormalized.ItemsTotal (length items))] in
          if (length items =? 0)%nat
          then (Return tt, w1 ++ [Logged PreviewNormalized.NoItems])
          else
            match PreviewNormalized.output_loop Date_parse sanitizeHtml items 0
                    (Nat.min (length items) 2) w1 with
            | (Return _, w2) => (Return tt, w2 ++ [Logged PreviewNormalized.FeedDone])
            | (Throw t, w2) =>
                (messageC t ≫= λ message, log_error (PreviewNormalized.ReadError message)) w2
            end
      | Throw t =>
          (messageC t ≫= λ message, log_error (PreviewNormalized.ReadError message))
            (w0 ++ tried)
      end).
  { unfold PreviewNormalized.previewNormalizedFeed, try_catchC.
    unfold mbind at 1 2 3. unfold Preview.C_bind at 1 2 3. unfold log at 1 2 3.
    replace (((w ++ [Logged PreviewNormalized.Separator])
              ++ [Logged (PreviewNormalized.FeedUrl url)])
             ++ [Logged PreviewNormalized.Rule]) with w0
      by (unfold w0; by rewrite <- !app_assoc).
    unfold mbind at 1. unfold Preview.C_bind at 1. rewrite Hretry.
    destruct o as [feed|t]; [|done].
    unfold mbind at 1 2. unfold Preview.C_bind at 1 2. unfold log at 1 2.
    cbv zeta. rewrite <- !app_assoc. cbn [app].
    destruct (length (default [] (feed_items feed)) =? 0)%nat.
    { unfold log. by rewrite <- !app_assoc. }
    unfold mbind at 1. unfold Preview.C_bind at 1.
    by destruct (PreviewNormalized.output_loop _ _ _ _ _ _) as [[[]|t] w2]. }
  rewrite Hopen. clear Hopen.
  destruct o as [feed|[|e]]; [|done|].
  2:{ exists [LoggedError (PreviewNormalized.ReadError (err_message e))], [].
      split; [console|]. repeat split; try done. by exists e. }
  cbv zeta. set (items := default [] (feed_items feed)).
  destruct (Nat.eqb_spec (length items) 0) as [Hnone|Hsome].
  { exists [Logged (PreviewNormalized.FeedTitle (feed_title feed));
            Logged (PreviewNormalized.ItemsTotal (length items));
            Logged PreviewNormalized.NoItems], [].
    split; [console|]. do 3 (split; [done|]).
    split; [constructor|]. left. rewrite Hnone. done. }
  destruct (output_loop_shows Date_parse sanitizeHtml items (Nat.min (length items) 2) 0
              ((w0 ++ tried) ++ [Logged (PreviewNormalized.FeedTitle (feed_title feed));
                                 Logged (PreviewNormalized.ItemsTotal (length items))]))
    as (o & ext & articles & Hrun & Hreq & Hwait & Herr & Hout & Hall & Ho); [lia|].
  rewrite Hrun. rewrite drop_0 in Hall. destruct o as [u|t].
  - exists ([Logged (PreviewNormalized.FeedTitle (feed_title feed));
             Logged (PreviewNormalized.ItemsTotal (length items))]
            ++ ext ++ [Logged PreviewNormalized.FeedDone]), articles.
    split; [console|].
    split; [by rewrite !requests_app, Hreq|].
    split; [by rewrite !waited_app, Hwait|].
    split; [by rewrite !outputs_app, Hout, app_nil_r|].
    split; [done|]. left. split; [done|].
    by rewrite !error_lines_app, Herr.
  - destruct Ho as (Hlt & raw & e & Hraw & -> & He).
    exists ([Logged (PreviewNormalized.FeedTitle (feed_title feed));
             Logged (PreviewNormalized.ItemsTotal (length items))]
            ++ ext ++ [LoggedError (PreviewNormalized.ReadError (err_message e))]), articles.
    split; [console|].
    split; [by rewrite !requests_app, Hreq|].
    split; [by rewrite !waited_app, Hwait|].
    split; [by rewrite !outputs_app, Hout, app_nil_r|].
    split; [done|]. right. split; [done|]. exists raw, e.
    split; [done|]. split; [done|]. by rewrite !error_lines_app, Herr.
Qed.

(** What one feed of [previewNormalized.js] can leave on the screen. *)
Lemma previewNormalizedFeed_bounds
    (Date_parse : jsstring -> option Z) (sanitizeHtml : jsstring -> jsstring)
    (parse_answer : Screen PreviewNormalized.Line -> string -> JsError + Feed)
    (url : string) (w : Screen PreviewNormalized.Line) :
  exists shown,
    PreviewNormalized.previewNormalizedFeed Date_parse sanitizeHtml parse_answer url w
    = (Return tt, w ++ shown)
    /\ (exists n, (1 <= n <= 3)%nat /\ requests shown = replicate n url)
    /\ 0 <= waited shown <= 5000
    /\ (length (outputs shown) <= 2)%nat
    /\ Forall (fun output =>
                 short_preview (PreviewNormalized.Output.content_html_preview output))
         (outputs shown)
    /\ (length (error_lines shown) <= 1)%nat.
Proof.
  set (w0 := w ++ [Logged PreviewNormalized.Separator; Logged (PreviewNormalized.FeedUrl url);
                   Logged PreviewNormalized.Rule]).
  destruct (preview_retry_bounds PreviewNormalized.RetryNote parse_answer url w0)
    as (o & tried & Hretry & Herrors & Hreq & Hwait & Herr).
  destruct (previewNormalizedFeed_run Date_parse sanitizeHtml parse_answer url w o tried
              Hretry Herrors) as (ext & articles & Hrun & Hreq' & Hwait' & Hout & Ho).
  assert (Houtputs : outputs tried = []).
  { revert Hretry. rewrite preview_retry_three. cbv zeta.
    destruct (parse_answer w0 url); [|by intros [= _ <-%app_inv_head]].
    destruct (parse_answer _ url);
      [|rewrite <- app_assoc; by intros [= _ <-%app_inv_head]].
    destruct (parse_answer _ url);
      rewrite <- !app_assoc; by intros [= _ <-%app_inv_head]. }
  exists ([Logged PreviewNormalized.Separator; Logged (PreviewNormalized.FeedUrl url);
           Logged PreviewNormalized.Rule] ++ tried ++ ext).
  split; [by rewrite Hrun; unfold w0; rewrite <- !app_assoc|].
  rewrite !requests_app, !waited_app, !outputs_app, !error_lines_app.
  rewrite Hreq', Hwait', Hout, Herr, Houtputs, app_nil_r. simpl.
  split; [done|]. split; [lia|].
  assert (Hcount : (length articles <= 2)%nat /\ (length (error_lines ext) <= 1)%nat).
  { destruct o as [feed|t].
    - destruct Ho as [_ [[Hlen ->]|[Hlen (raw & e & _ & _ & ->)]]]; simpl; lia.
    - destruct Ho as [-> (e & _ & ->)]. simpl. lia. }
  rewrite length_fmap. split; [apply Hcount|]. split; [|apply Hcount].
  apply Forall_fmap, Forall_forall. intros a _. apply output_of_short.
Qed.

(** X18. The preview of one feed in [previewNormalized.js] never raises,
    whatever the network answers and whatever the items hold: it asks for
    the feed between one and three times and for no other address, waits
    at most five seconds, shows at most two normalized items, each with a
    preview of [content_html] of at most 120 code units followed by the
    ellipsis (or with none), and logs at most one error. *)
Theorem preview_of_a_feed_is_bounded
    (Date_parse : jsstring -> option Z) (sanitizeHtml : jsstring -> jsstring)
    (parse_answer : Screen PreviewNormalized.Line -> string -> JsError + Feed)
    (url : string) (w : Screen PreviewNormalized.Line) :
  exists shown,
    PreviewNormalized.previewNormalizedFeed Date_parse sanitizeHtml parse_answer url w
    = (Return tt, w ++ shown)
    /\ (exists n, (1 <= n <= 3)%nat /\ requests shown = replicate n url)
    /\ 0 <= waited shown <= 5000
    /\ (length (outputs shown) <= 2)%nat
    /\ Forall (fun output =>
                 short_preview (PreviewNormalized.Output.content_html_preview output))
         (outputs shown)
    /\ (length (error_lines shown) <= 1)%nat.
Proof. apply previewNormalizedFeed_bounds. Qed.

(** X19. When the feed is obtained at the first attempt, the script shows
    the outputs of the leading items it can normalize, in the order of the
    feed, and never more than two. It shows the first two items (or the
    only one) without logging an error, or it stops at the first of them
    that the Normalizer rejects: the items before it are shown, the error's
    message is logged, and no later item is shown. Items after the second
    are never normalized. *)
Theorem preview_stops_at_first_rejected_item
    (Date_parse : jsstring -> option Z) (sanitizeHtml : jsstring -> jsstring)
    (parse_answer : Screen PreviewNormalized.Line -> string -> JsError + Feed)
    (url : string) (w : Screen PreviewNormalized.Line) (feed : Feed) (items : list Item) :
  parse_answer (w ++ [Logged PreviewNormalized.Separator; Logged (PreviewNormalized.FeedUrl url);
                      Logged PreviewNormalized.Rule]) url = inr feed ->
  feed_items feed = Some items ->
  exists shown articles,
    PreviewNormalized.previewNormalizedFeed Date_parse sanitizeHtml parse_answer url w
    = (Return tt, w ++ shown)
    /\ outputs shown = PreviewNormalized.output_of <$> articles
    /\ Forall2 (fun raw a => normalizeItem Date_parse sanitizeHtml raw = Return a)
         (take (length articles) items) articles
    /\ ((length articles = Nat.min (length items) 2 /\ error_lines shown = [])
        \/ ((length articles < Nat.min (length items) 2)%nat
            /\ exists raw e,
                 items !! length articles = Some raw
                 /\ normalizeItem Date_parse sanitizeHtml raw = Throw (ThrownError e)
                 /\ error_lines shown = [PreviewNormalized.ReadError (err_message e)])).
Proof.
  intros Hfeed Hitems.
  set (w0 := w ++ [Logged PreviewNormalized.Separator; Logged (PreviewNormalized.FeedUrl url);
                   Logged PreviewNormalized.Rule]) in *.
  assert (Hretry : Preview.parseWithRetry PreviewNormalized.Line PreviewNormalized.RetryNote
                     parse_answer url 3 w0 = (Return feed, w0 ++ [Requested url])).
  { by rewrite preview_retry_three, Hfeed. }
  destruct (previewNormalizedFeed_run Date_parse sanitizeHtml parse_answer url w
              (Return feed) [Requested url] Hretry I)
    as (ext & articles & Hrun & Hreq & Hwait & Hout & Hall & Hcases).
  rewrite Hitems in Hall, Hcases. simpl in Hall, Hcases.
  exists ([Logged PreviewNormalized.Separator; Logged (PreviewNormalized.FeedUrl url);
           Logged PreviewNormalized.Rule] ++ [Requested url] ++ ext), articles.
  split; [by rewrite Hrun; unfold w0; rewrite <- !app_assoc|].
  split; [by rewrite !outputs_app, Hout|]. split; [done|].
  by rewrite !error_lines_app.
Qed.

Lemma preview_stops_at_first_rejected_item_witness :
  exists shown,
    PreviewNormalized.previewNormalizedFeed parse_nothing keep_all
      (fun _ _ => inr (mkFeed (str "News") (Some [object_title; breaking_news])))
      "https://example.com/rss" []
    = (Return tt, [] ++ shown)
    /\ outputs shown = []
    /\ exists e, error_lines shown = [PreviewNormalized.ReadError (err_message e)].
Proof.
  destruct (preview_stops_at_first_rejected_item parse_nothing keep_all
              (fun _ _ => inr (mkFeed (str "News") (Some [object_title; breaking_news])))
              "https://example.com/rss" [] _ [object_title; breaking_news] eq_refl eq_refl)
    as (shown & articles & Hrun & Hout & Hall & Hcases).
  exists shown. split; [exact Hrun|].
  assert (Hnone : articles = []).
  { destruct articles as [|a rest]; [done|]. simpl in Hall.
    apply Forall2_cons_1 in Hall as [Ha _]. vm_compute in Ha. discriminate. }
  subst articles. split; [exact Hout|].
  destruct Hcases as [[Hlen _]|[_ (raw & e & _ & _ & Herr)]]; [discriminate|].
  by exists e.
Defined.

Lemma normalized_feeds_run
    (Date_parse : jsstring -> option Z) (sanitizeHtml : jsstring -> jsstring)
    (parse_answer : Screen PreviewNormalized.Line -> string -> JsError + Feed)
    (feeds : list string) :
  forall w, exists shown counts,
    PreviewNormalized.preview_feeds Date_parse sanitizeHtml parse_answer feeds w
    = (Return tt, w ++ shown)
    /\ length counts = length feeds
    /\ Forall (fun n => 1 <= n <= 3)%nat counts
    /\ requests shown = visits counts feeds
    /\ 0 <= waited shown <= 5000 * Z.of_nat (length feeds)
    /\ (length (outputs shown) <= 2 * length feeds)%nat
    /\ (length (error_lines shown) <= length feeds)%nat.
Proof.
  induction feeds as [|url rest IH]; intros w.
  - exists [], []. rewrite app_nil_r. repeat split; done || constructor.
  - cbn [PreviewNormalized.preview_feeds]. unfold mbind, Preview.C_bind.
    destruct (previewNormalizedFeed_bounds Date_parse sanitizeHtml parse_answer url w)
      as (shown & Hrun & (n & Hn & Hreq) & Hwait & Hout & _ & Herr).
    rewrite Hrun.
    destruct (IH (w ++ shown))
      as (shown' & counts & Hrun' & Hlen & Hcounts & Hreq' & Hwait' & Hout' & Herr').
    rewrite Hrun'. exists (shown ++ shown'), (n :: counts).
    split; [by rewrite app_assoc|]. split; [simpl; lia|]. split; [by constructor|].
    rewrite requests_app, waited_app, outputs_app, error_lines_app, !length_app.
    split; [by rewrite Hreq, Hreq'|]. simpl length. repeat split; lia.
Qed.

(** X20. [previewNormalized.js] as a whole. Without configured feeds it
    logs an error and exits with code 1, asking for nothing. With feeds it
    always runs to its end: it previews every feed in the configured
    order, each asked for between one and three times, whatever happened
    to the feeds before it, shows at most two items per feed, and logs
    the closing line last. *)
Theorem normalized_preview_visits_every_feed
    (Date_parse : jsstring -> option Z) (sanitizeHtml : jsstring -> jsstring)
    (parse_answer : Screen PreviewNormalized.Line -> string -> JsError + Feed)
    (FEEDS : list string) (w : Screen PreviewNormalized.Line) :
  PreviewNormalized.main Date_parse sanitizeHtml parse_answer [] w
  = (Return (Exited 1), w ++ [LoggedError PreviewNormalized.NoFeedsConfigured])
  /\ (FEEDS ≠ [] ->
      exists shown counts,
        PreviewNormalized.main Date_parse sanitizeHtml parse_answer FEEDS w
        = (Return RanToEnd, (w ++ shown) ++ [Logged PreviewNormalized.PreviewCompleted])
        /\ length counts = length FEEDS
        /\ Forall (fun n => 1 <= n <= 3)%nat counts
        /\ requests shown = visits counts FEEDS
        /\ 0 <= waited shown <= 5000 * Z.of_nat (length FEEDS)
        /\ (length (outputs shown) <= 2 * length FEEDS)%nat).
Proof.
  split; [done|]. intros Hne.
  destruct (normalized_feeds_run Date_parse sanitizeHtml parse_answer FEEDS w)
    as (shown & counts & Hrun & Hlen & Hcounts & Hreq & Hwait & Hout & _).
  exists shown, counts. split; [|done].
  destruct FEEDS as [|url rest]; [done|].
  unfold PreviewNormalized.main. cbn [length Nat.eqb].
  unfold mbind at 1. unfold Preview.C_bind at 1. rewrite Hrun. done.
Qed.

Lemma normalized_preview_visits_every_feed_witness :
  exists shown counts,
    PreviewNormalized.main parse_nothing keep_all (fun _ _ => inl timeout_error)
      ["https://example.com/a.rss"; "https://example.com/b.rss"] []
    = (Return RanToEnd, ([] ++ shown) ++ [Logged PreviewNormalized.PreviewCompleted])
    /\ length counts = 2%nat
    /\ Forall (fun n => 1 <= n <= 3)%nat counts
    /\ requests shown
       = visits counts ["https://example.com/a.rss"; "https://example.com/b.rss"].
Proof.
  destruct (proj2 (normalized_preview_visits_every_feed parse_nothing keep_all
                     (fun _ _ => inl timeout_error)
                     ["https://example.com/a.rss"; "https://example.com/b.rss"] [])
              ltac:(discriminate))
    as (shown & counts & Hrun & Hlen & Hcounts & Hreq & _).
  by exists shown, counts.
Defined.

(** *** fetchPreview.js *)

(** What [prettyItemSample] shows of a snippet: nothing, or a string of at
    most 140 code units. *)
Lemma prettyItemSample_snippet (item : Item) (sample : FetchPreview.Sample.t) :
  FetchPreview.prettyItemSample item = Return sample ->
  match FetchPreview.Sample.contentSnippet sample with
  | VUndef => True
  | VStr text => (length text <= 140)%nat
  | _ => False
  end.
Proof.
  destruct item as [|fields]; [done|].
  unfold FetchPreview.prettyItemSample, FetchPreview.get. simpl mbind.
  destruct (truthy (default VUndef (fields !! "contentSnippet"))); simpl mbind.
  - destruct (to_String _) as [text|t]; simpl mbind; [|done]. intros [= <-]. simpl.
    change 140 with (Z.of_nat 140). rewrite slice0_prefix, length_take. lia.
  - by intros [= <-].
Qed.

Lemma prettyItemSample_raises_errors_only (item : Item) :
  raises_errors_only (FetchPreview.prettyItemSample item).
Proof.
  destruct item as [|fields]; [done|].
  unfold FetchPreview.prettyItemSample, FetchPreview.get. simpl mbind.
  destruct (truthy (default VUndef (fields !! "contentSnippet"))); simpl mbind; [|done].
  pose proof (to_String_raises_errors_only (default VUndef (fields !! "contentSnippet"))) as H.
  by destruct (to_String _) as [text|[|e]].
Qed.

Lemma listItemKeys_raises_errors_only (item : Item) :
  raises_errors_only (FetchPreview.listItemKeys item).
Proof. by destruct item. Qed.

(** The loop over the items to sample: it shows the samples of the items
    it could read, in order, and stops at the first it could not. *)
Lemma sample_loop_shows (items : list Item) (todo : nat) :
  forall (i : nat) (w : Screen FetchPreview.Line),
    (i + todo <= length items)%nat ->
    exists o ext shown,
      FetchPreview.sample_loop items i todo w = (o, w ++ ext)
      /\ raises_errors_only o
      /\ requests ext = [] /\ waited ext = 0 /\ error_lines ext = []
      /\ samples ext = shown
      /\ (length shown <= todo)%nat
      /\ Forall2 (fun raw sample => FetchPreview.prettyItemSample raw = Return sample)
           (take (length shown) (drop i items)) shown.
Proof.
  induction todo as [|todo IH]; intros i w Hlen.
  - exists (Return tt), [], []. rewrite app_nil_r. simpl.
    repeat split; done || constructor.
  - destruct (lookup_lt_is_Some_2 items i) as [raw Hraw]; [lia|].
    cbn [FetchPreview.sample_loop]. rewrite Hraw. cbn [default from_option]. unfold id.
    unfold mbind, Preview.C_bind, liftC, log.
    pose proof (prettyItemSample_raises_errors_only raw) as Herrors.
    destruct (FetchPreview.prettyItemSample raw) as [sample|t] eqn:Hsample.
    + destruct (IH (S i) ((w ++ [Logged (FetchPreview.SampleHeading (i + 1))])
                          ++ [Logged (FetchPreview.SampleShown sample)]))
        as (o & ext & shown & Hrun & Ho & Hreq & Hwait & Herr & Hshown & Hle & Hall); [lia|].
      rewrite Hrun.
      exists o, ([Logged (FetchPreview.SampleHeading (i + 1));
                  Logged (FetchPreview.SampleShown sample)] ++ ext), (sample :: shown).
      split; [by rewrite <- !app_assoc|]. split; [done|].
      split; [by rewrite requests_app, Hreq|].
      split; [by rewrite waited_app, Hwait|].
      split; [by rewrite error_lines_app, Herr|].
      split; [by rewrite samples_app, Hshown|].
      split; [simpl; lia|].
      rewrite (drop_S _ _ _ Hraw). simpl. by constructor.
    + exists (Throw t), [Logged (FetchPreview.SampleHeading (i + 1))], [].
      split; [done|]. split; [done|]. do 4 (split; [done|]).
      split; [simpl; lia|]. constructor.
Qed.

(** What one feed of [fetchPreview.js] can leave on the screen. *)
Lemma previewOneFeed_bounds
    (parse_answer : Screen FetchPreview.Line -> string -> JsError + Feed)
    (url : string) (w : Screen FetchPreview.Line) :
  exists shown,
    FetchPreview.previewOneFeed parse_answer url w = (Return tt, w ++ shown)
    /\ (exists n, (1 <= n <= 3)%nat /\ requests shown = replicate n url)
    /\ 0 <= waited shown <= 5000
    /\ (length (samples shown) <= 2)%nat
    /\ ((exists feed items,
           feed_items feed = Some items
           /\ Forall2 (fun raw sample => FetchPreview.prettyItemSample raw = Return sample)
                (take (length (samples shown)) items) (samples shown))
        \/ samples shown = [])
    /\ (length (error_lines shown) <= 1)%nat.
Proof.
  set (w0 := w ++ [Logged FetchPreview.Separator; Logged (FetchPreview.FeedUrl url);
                   Logged FetchPreview.Rule]).
  destruct (preview_retry_bounds FetchPreview.RetryNote parse_answer url w0)
    as (o & tried & Hretry & Herrors & Hreq & Hwait & Herr).
  assert (Hsamples : samples tried = []).
  { revert Hretry. rewrite preview_retry_three. cbv zeta.
    destruct (parse_answer w0 url); [|by intros [= _ <-%app_inv_head]].
    destruct (parse_answer _ url);
      [|rewrite <- app_assoc; by intros [= _ <-%app_inv_head]].
    destruct (parse_answer _ url);
      rewrite <- !app_assoc; by intros [= _ <-%app_inv_head]. }
  assert (Hopen : exists ext,
    FetchPreview.previewOneFeed parse_answer url w = (Return tt, (w0 ++ tried) ++ ext)
    /\ requests ext = [] /\ waited ext = 0
    /\ (length (samples ext) <= 2)%nat
    /\ (length (error_lines ext) <= 1)%nat
    /\ ((exists feed items,
           feed_items feed = Some items
           /\ Forall2 (fun raw sample => FetchPreview.prettyItemSample raw = Return sample)
                (take (length (samples ext)) items) (samples ext))
        \/ samples ext = [])).
  { unfold FetchPreview.previewOneFeed, try_catchC.
    unfold mbind at 1 2 3. unfold Preview.C_bind at 1 2 3. unfold log at 1 2 3.
    replace (((w ++ [Logged FetchPreview.Separator]) ++ [Logged (FetchPreview.FeedUrl url)])
             ++ [Logged FetchPreview.Rule]) with w0
      by (unfold w0; by rewrite <- !app_assoc).
    unfold mbind at 1. unfold Preview.C_bind at 1. rewrite Hretry.
    destruct o as [feed|[|e]]; [|done|].
    2:{ exists [LoggedError (FetchPreview.ReadError (err_message e))].
        split; [console|]. repeat split; simpl; lia || auto. }
    unfold mbind at 1 2. unfold Preview.C_bind at 1 2. unfold log at 1 2.
    destruct (feed_items feed) as [items|] eqn:Hitems.
    2:{ exists [Logged (FetchPreview.FeedTitle (feed_title feed));
                Logged (FetchPreview.ItemsTotal 0); Logged FetchPreview.NoItems].
        split; [console|]. repeat split; simpl; lia || auto. }
    cbn [from_option].
    destruct (Nat.eqb_spec (length items) 0) as [Hnone|Hsome].
    { exists [Logged (FetchPreview.FeedTitle (feed_title feed));
              Logged (FetchPreview.ItemsTotal (length items)); Logged FetchPreview.NoItems].
      split; [console|]. repeat split; simpl; lia || auto. }
    unfold mbind at 1. unfold Preview.C_bind at 1. unfold liftC.
    pose proof (listItemKeys_raises_errors_only (default Nullish (items !! 0%nat))) as Hkeys.
    destruct (FetchPreview.listItemKeys _) as [keys|[|e]]; [|done|].
    2:{ exists [Logged (FetchPreview.FeedTitle (feed_title feed));
                Logged (FetchPreview.ItemsTotal (length items));
                LoggedError (FetchPreview.ReadError (err_message e))].
        split; [console|]. repeat split; simpl; lia || auto. }
    unfold mbind at 1. unfold Preview.C_bind at 1. unfold log at 1.
    destruct (sample_loop_shows items (Nat.min (length items) 2) 0
                ((((w0 ++ tried) ++ [Logged (FetchPreview.FeedTitle (feed_title feed))])
                  ++ [Logged (FetchPreview.ItemsTotal (length items))])
                 ++ [Logged (FetchPreview.AvailableKeys keys)]))
      as (o & ext & shown & Hrun & Ho & Hreq' & Hwait' & Herr' & Hshown & Hle & Hall); [lia|].
    rewrite Hrun. rewrite drop_0 in Hall. subst shown.
    destruct o as [[]|[|e]]; [|done|].
    - exists ([Logged (FetchPreview.FeedTitle (feed_title feed));
               Logged (FetchPreview.ItemsTotal (length items));
               Logged (FetchPreview.AvailableKeys keys)] ++ ext).
      split; [by rewrite <- !app_assoc|].
      rewrite requests_app, waited_app, samples_app, error_lines_app, Hreq', Hwait', Herr'.
      simpl. repeat split; try lia. left. by exists feed, items.
    - exists ([Logged (FetchPreview.FeedTitle (feed_title feed));
               Logged (FetchPreview.ItemsTotal (length items));
               Logged (FetchPreview.AvailableKeys keys)] ++ ext
              ++ [LoggedError (FetchPreview.ReadError (err_message e))]).
      split; [console|].
      rewrite !requests_app, !waited_app, !samples_app, !error_lines_app, Hreq', Hwait', Herr'.
      simpl. rewrite app_nil_r. repeat split; try lia. left. by exists feed, items. }
  destruct Hopen as (ext & Hrun & Hreq' & Hwait' & Hcount & Herr' & Hall).
  exists ([Logged FetchPreview.Separator; Logged (FetchPreview.FeedUrl url);
           Logged FetchPreview.Rule] ++ tried ++ ext).
  split; [by rewrite Hrun; unfold w0; rewrite <- !app_assoc|].
  rewrite !requests_app, !waited_app, !samples_app, !error_lines_app.
  rewrite Hreq', Hwait', Herr, Hsamples, app_nil_r. simpl.
  split; [done|]. split; [lia|]. split; [done|]. split; [done|]. done.
Qed.

(** X17. The preview of one feed in [fetchPreview.js] never raises,
    whatever the network answers and whatever the items hold: it asks for
    the feed between one and three times and for no other address, waits
    at most five seconds, shows the samples of at most two items, each
    with a snippet of at most 140 code units or none, and logs at most one
    error. *)
Theorem raw_preview_of_a_feed_is_bounded
    (parse_answer : Screen FetchPreview.Line -> string -> JsError + Feed)
    (url : string) (w : Screen FetchPreview.Line) :
  exists shown,
    FetchPreview.previewOneFeed parse_answer url w = (Return tt, w ++ shown)
    /\ (exists n, (1 <= n <= 3)%nat /\ requests shown = replicate n url)
    /\ 0 <= waited shown <= 5000
    /\ (length (samples shown) <= 2)%nat
    /\ Forall short_snippet (samples shown)
    /\ (length (error_lines shown) <= 1)%nat.
Proof.
  destruct (previewOneFeed_bounds parse_answer url w)
    as (shown & Hrun & Hreq & Hwait & Hcount & Hall & Herr).
  exists shown. do 4 (split; [done|]). split; [|done].
  destruct Hall as [(feed & items & _ & Hall) | Hnone]; [|rewrite Hnone; constructor].
  clear Hcount. revert Hall.
  generalize (take (length (samples shown)) items), (samples shown).
  intros raws0 shown0 Hall.
  induction Hall as [|raw sample raws shown' Hsample _ IH]; constructor; [|done].
  by apply (prettyItemSample_snippet raw).
Qed.

Lemma fetch_feeds_run
    (parse_answer : Screen FetchPreview.Line -> string -> JsError + Feed)
    (feeds : list string) :
  forall w, exists shown counts,
    FetchPreview.preview_feeds parse_answer feeds w = (Return tt, w ++ shown)
    /\ length counts = length feeds
    /\ Forall (fun n => 1 <= n <= 3)%nat counts
    /\ requests shown = visits counts feeds
    /\ 0 <= waited shown <= 5000 * Z.of_nat (length feeds)
    /\ (length (samples shown) <= 2 * length feeds)%nat
    /\ (length (error_lines shown) <= length feeds)%nat.
Proof.
  induction feeds as [|url rest IH]; intros w.
  - exists [], []. rewrite app_nil_r. repeat split; done || constructor.
  - cbn [FetchPreview.preview_feeds]. unfold mbind, Preview.C_bind.
    destruct (previewOneFeed_bounds parse_answer url w)
      as (shown & Hrun & (n & Hn & Hreq) & Hwait & Hout & _ & Herr).
    rewrite Hrun.
    destruct (IH (w ++ shown))
      as (shown' & counts & Hrun' & Hlen & Hcounts & Hreq' & Hwait' & Hout' & Herr').
    rewrite Hrun'. exists (shown ++ shown'), (n :: counts).
    split; [by rewrite app_assoc|]. split; [simpl; lia|]. split; [by constructor|].
    rewrite requests_app, waited_app, samples_app, error_lines_app, !length_app.
    split; [by rewrite Hreq, Hreq'|]. simpl length. repeat split; lia.
Qed.

(** X21. [fetchPreview.js] as a whole. Without configured feeds it logs an
    error and exits with code 1, asking for nothing. With feeds it always
    runs to its end: it previews every feed in the configured order, each
    asked for between one and three times, whatever happened to the feeds
    before it, shows at most two samples per feed, and logs the closing
    line last. *)
Theorem raw_preview_visits_every_feed
    (parse_answer : Screen FetchPreview.Line -> string -> JsError + Feed)
    (FEEDS : list string) (w : Screen FetchPreview.Line) :
  FetchPreview.main parse_answer [] w
  = (Return (Exited 1), w ++ [LoggedError FetchPreview.NoFeedsConfigured])
  /\ (FEEDS ≠ [] ->
      exists shown counts,
        FetchPreview.main parse_answer FEEDS w
        = (Return RanToEnd, (w ++ shown) ++ [Logged FetchPreview.PreviewCompleted])
        /\ length counts = length FEEDS
        /\ Forall (fun n => 1 <= n <= 3)%nat counts
        /\ requests shown = visits counts FEEDS
        /\ 0 <= waited shown <= 5000 * Z.of_nat (length FEEDS)
        /\ (length (samples shown) <= 2 * length FEEDS)%nat).
Proof.
  split; [done|]. intros Hne.
  destruct (fetch_feeds_run parse_answer FEEDS w)
    as (shown & counts & Hrun & Hlen & Hcounts & Hreq & Hwait & Hout & _).
  exists shown, counts. split; [|done].
  destruct FEEDS as [|url rest]; [done|].
  unfold FetchPreview.main. cbn [length Nat.eqb].
  unfold mbind at 1. unfold Preview.C_bind at 1. rewrite Hrun. done.
Qed.

Lemma raw_preview_visits_every_feed_witness :
  exists shown counts,
    FetchPreview.main (fun _ _ => inr (mkFeed (str "News") (Some [breaking_news])))
      ["https://example.com/a.rss"; "https://example.com/b.rss"] []
    = (Return RanToEnd, ([] ++ shown) ++ [Logged FetchPreview.PreviewCompleted])
    /\ length counts = 2%nat
    /\ Forall (fun n => 1 <= n <= 3)%nat counts
    /\ requests shown
       = visits counts ["https://example.com/a.rss"; "https://example.com/b.rss"].
Proof.
  destruct (proj2 (raw_preview_visits_every_feed
                     (fun _ _ => inr (mkFeed (str "News") (Some [breaking_news])))
                     ["https://example.com/a.rss"; "https://example.com/b.rss"] [])
              ltac:(discriminate))
    as (shown & counts & Hrun & Hlen & Hcounts & Hreq & _).
  by exists shown, counts.
Defined.
